(** * edflow: the hooked model iterator and the CelebA dataset preparation

    A shallow embedding of [edflow/iterators/model_iterator.py]
    (class [PyHookedModelIterator]) and of the preparation and loading
    steps of [edflow/datasets/celeba.py] (class [CelebA] and its split
    subclasses), followed by the properties of the training loop, the
    hook dispatch, the shutdown path, the feed payload and the dataset
    construction.

    Python code runs here in a small monad of our own: a computation takes
    the mutable state, and yields an outcome (a value or a raised
    exception), the state it leaves behind, and the list of observable
    events it produced, in order.  A raised exception keeps the state as
    it was at the raise, as in Python. *)

From Stdlib Require Import List ZArith Lia Bool String Arith.
Import ListNotations.
Local Open Scope string_scope.
Local Open Scope list_scope.
Local Open Scope Z_scope.

Set Implicit Arguments.

(** ** Exceptions *)

(** The exceptions that occur in the two files, and the two kinds that
    user code (hooks, fetch ops, streams) can raise: [UserError] derives
    from [Exception], [BaseError] only from [BaseException] (as
    [KeyboardInterrupt] does). *)
Inductive exn : Type :=
| ShutdownRequest
| ZeroDivisionError
| NotImplementedError
| StopIteration
| KeyError
| TypeError
| IndexError
| AssertionError
| FileNotFoundError
| ValueError (msg : string)
| UserError (n : nat)
| BaseError (n : nat)
| SystemExit (code : Z).

(** [isinstance(e, Exception)], which [except Exception] tests. *)
Definition is_Exception (e : exn) : bool :=
  match e with
  | BaseError _ | SystemExit _ => false
  | _ => true
  end.

Inductive outcome (A : Type) : Type :=
| Ok (a : A)
| Raise (e : exn).
Arguments Ok {A} a.
Arguments Raise {A} e.

Definition is_Ok {A} (o : outcome A) : bool :=
  match o with Ok _ => true | Raise _ => false end.

(** ** Nested structures and [walk] *)

(** Batches, feeds, fetches and results are nested lists and dicts; a
    dict keeps its insertion order. *)
Unset Elimination Schemes.
Inductive tree (A : Type) : Type :=
| Leaf (a : A)
| TList (xs : list (tree A))
| TDict (kvs : list (string * tree A)).
Set Elimination Schemes.
Arguments Leaf {A} a.
Arguments TList {A} xs.
Arguments TDict {A} kvs.

Section TreeInd.
Variables (A : Type) (P : tree A -> Prop).
Hypothesis HLeaf : forall a, P (Leaf a).
Hypothesis HList : forall xs, Forall P xs -> P (TList xs).
Hypothesis HDict :
  forall kvs, Forall (fun kv => P (snd kv)) kvs -> P (TDict kvs).

Fixpoint tree_nested_ind (t : tree A) : P t :=
  match t with
  | Leaf a => HLeaf a
  | TList xs =>
      HList ((fix go (l : list (tree A)) : Forall P l :=
                match l with
                | [] => Forall_nil P
                | x :: r => Forall_cons x (tree_nested_ind x) (go r)
                end) xs)
  | TDict kvs =>
      HDict ((fix go (l : list (string * tree A))
                : Forall (fun kv => P (snd kv)) l :=
                match l with
                | [] => Forall_nil _
                | kv :: r =>
                    Forall_cons kv
                      (match kv as p return P (snd p) with
                       | (_, v) => tree_nested_ind v
                       end) (go r)
                end) kvs)
  end.
End TreeInd.

(** The shape of a structure: the structure with its leaves erased. *)
Fixpoint shape {A} (t : tree A) : tree unit :=
  match t with
  | Leaf _ => Leaf tt
  | TList xs => TList (map shape xs)
  | TDict kvs => TDict (map (fun kv => (fst kv, shape (snd kv))) kvs)
  end.

(** The leaves of a structure, left to right. *)
Fixpoint leaves {A} (t : tree A) : list A :=
  match t with
  | Leaf a => [a]
  | TList xs => flat_map leaves xs
  | TDict kvs => flat_map (fun kv => leaves (snd kv)) kvs
  end.

(** ** Observable events *)

Definition ref := nat.   (* the identity of a stream object *)
Definition loc := nat.   (* the identity of an array-like leaf object *)

(** The callbacks of a hook, with the index they are given. *)
Inductive callback : Type :=
| BeforeEpoch (index : nat)
| AfterEpoch (index : nat)
| BeforeStep (index : nat)
| AfterStep (index : nat)
| AtException (e : exn).

(** The three progress bars of [_iterate]. *)
Inductive bar : Type :=
| BarEpoch
| BarBatch
| BarSplit (split : string).

Inductive event : Type :=
| EvCall (hook : nat) (c : callback) (global_step : Z)
    (* a callback of the hook is entered; the global step at that time *)
| EvNext (split : string) (r : ref)       (* next(batches[split]) *)
| EvReset (split : string) (r : ref)      (* batches[split].reset() *)
| EvRun                                   (* self.run(fetches, feed_dict) *)
| EvOp (name : nat)                       (* a fetch op is called *)
| EvProgress (b : bar) (i : nat)          (* one iteration of a trange *)
| EvWarning (msg : string)                (* self.logger.warning *)
| EvInfo (msg : string).                  (* self.logger.info *)

(** ** Hooks and fetch ops: the user's code *)

(** What the iterator lets a hook read: the step state. *)
Record step_state : Type := mkStep {
  _global_step : Z;
  _batch_step : nat;
  _epoch_step : nat;
  _split : option string
}.

(** What a hook does with the results it is given in [after_step]:
    it calls entries of the results dict, or raises. *)
Inductive action : Type :=
| Invoke (key : string)      (* results[key]() *)
| Throw (e : exn).           (* raise e *)

(** A hook is user code.  Its callbacks are modelled by what the
    iterator can observe of them: whether they raise, and, for
    [after_step], which entries of [results] they call, in order, given
    the step state, the index and the keys of [results].  A hook does not
    catch what a thunk raises, keeps no thunk beyond the call it got it
    in, and does not write the iterator's step state. *)
Record hook : Type := mkHook {
  hook_name : nat;
  before_epoch : step_state -> nat -> option exn;
  after_epoch : step_state -> nat -> option exn;
  before_step : step_state -> nat -> option exn;
  after_step : step_state -> nat -> list string -> list action;
  at_exception : step_state -> exn -> option exn
}.

Definition heap := loc -> Z.

Definition upd (h : heap) (l : loc) (v : Z) : heap :=
  fun l' => if Nat.eqb l' l then v else h l'.

(** A fetch op is called as [fetch_fn(self.model, **feed_dict)]: it gets
    the entries of the feed dict, reads and writes the objects they refer
    to (and the model, which lives in the same heap), and returns a value
    or raises. *)
Record fetch_op : Type := mkOp {
  op_name : nat;
  op_call : list (string * tree loc) -> heap -> outcome Z * heap
}.

(** ** Split streams: the interface of the data layer *)

(** A split stream is an object of the caller's; the iterator uses
    [next(s)], [s.is_new_epoch], [s.reset()] and [len(s)]. *)
Class SplitStream (Stm : Type) : Type := {
  s_next : Stm -> outcome (tree loc) * Stm;
  s_is_new_epoch : Stm -> bool;
  s_reset : Stm -> Stm;
  s_len : Stm -> nat
}.

(** ** The iterator object *)

(** What [__init__] stores in [self], and the entries of [self.config]
    that the iterator reads.  [step_ops] is [None] when the subclass
    does not override the method, which then raises
    [NotImplementedError]. *)
Record iterator : Type := mkIterator {
  test_mode : bool;                   (* config.get("test_mode", False) *)
  num_steps : option Z;               (* config.get("num_steps", inf) *)
  num_epochs : Z;
  hook_freq : Z;
  hooks : list hook;
  epoch_hooks : list hook;
  step_ops : option (tree fetch_op)
}.

(** ** The state and the monad *)

Section Iterator.

Context {Stm : Type} `{SplitStream Stm}.

(** The mutable state: the iterator's step state, the stream objects
    (by identity, so that two names for one stream share its state), the
    leaf objects of the batches, and the cell of [_iterate]'s local
    variable [active], which the thunks of the per-split phase write
    ([nonlocal active]). *)
Record state : Type := mkState {
  step : step_state;
  streams : ref -> Stm;
  objects : heap;
  active : bool
}.

Record res (A : Type) : Type := mkRes {
  out : outcome A;
  post : state;
  tr : list event
}.

Definition M (A : Type) : Type := state -> res A.

Definition ret {A} (a : A) : M A := fun st => mkRes (Ok a) st [].

Definition raise {A} (e : exn) : M A := fun st => mkRes (Raise e) st [].

Definition bind {A B} (m : M A) (f : A -> M B) : M B :=
  fun st =>
    let r := m st in
    match out r with
    | Ok a => let r' := f a (post r) in
              mkRes (out r') (post r') (tr r ++ tr r')
    | Raise e => mkRes (Raise e) (post r) (tr r)
    end.

Notation "x <- c1 ;; c2" := (bind c1 (fun x => c2))
  (at level 100, c1 at next level, right associativity).
Notation "c1 ;; c2" := (bind c1 (fun _ => c2))
  (at level 100, right associativity).

Definition emit (ev : event) : M unit := fun st => mkRes (Ok tt) st [ev].

Definition get_step : M step_state := fun st => mkRes (Ok (step st)) st [].

Definition put_step (s : step_state) : M unit :=
  fun st => mkRes (Ok tt) (mkState s (streams st) (objects st) (active st)) [].

(** [for x in xs: body(x)] without [break]. *)
Fixpoint for_each {A} (xs : list A) (body : A -> M unit) : M unit :=
  match xs with
  | [] => ret tt
  | x :: rest => body x ;; for_each rest body
  end.

(** [for x in xs: body(x)] where the body says whether it hit [break]. *)
Fixpoint for_break {A} (xs : list A) (body : A -> M bool) : M unit :=
  match xs with
  | [] => ret tt
  | x :: rest => broke <- body x ;;
                 if broke then ret tt else for_break rest body
  end.

(** [trange(n, ...)]: the indices [0 .. n-1], each shown on the bar. *)
Definition trange (b : bar) (n : nat) : list nat := seq 0 n.

(** Modelled from the spec: [edflow.util.walk], which is not among the
    sources.  The spec's fetch graph evaluator, which is [walk] applied
    to the fetches, produces "a results structure of identical shape
    where each callable has been invoked", without re-ordering calls:
    [walk] rebuilds the lists and dicts and applies [fn] to every leaf,
    left to right. *)
Fixpoint walk {A B} (t : tree A) (fn : A -> M B) : M (tree B) :=
  match t with
  | Leaf a => b <- fn a ;; ret (Leaf b)
  | TList xs =>
      ys <- (fix go (l : list (tree A)) : M (list (tree B)) :=
               match l with
               | [] => ret []
               | x :: r => y <- walk x fn ;; ys <- go r ;; ret (y :: ys)
               end) xs ;;
      ret (TList ys)
  | TDict kvs =>
      ys <- (fix go (l : list (string * tree A))
               : M (list (string * tree B)) :=
               match l with
               | [] => ret []
               | (k, v) :: r =>
                   y <- walk v fn ;; ys <- go r ;; ret ((k, y) :: ys)
               end) kvs ;;
      ret (TDict ys)
  end.

(** ** [PyHookedModelIterator] *)

Variable self : iterator.

Definition get_global_step : M Z :=
  s <- get_step ;; ret (_global_step s).

Definition set_global_step (v : Z) : M unit :=
  s <- get_step ;;
  put_step (mkStep v (_batch_step s) (_epoch_step s) (_split s)).

Definition set_batch_step (i : nat) : M unit :=
  s <- get_step ;;
  put_step (mkStep (_global_step s) i (_epoch_step s) (_split s)).

Definition set_epoch_step (i : nat) : M unit :=
  s <- get_step ;;
  put_step (mkStep (_global_step s) (_batch_step s) i (_split s)).

Definition set_split (split : string) : M unit :=
  s <- get_step ;;
  put_step (mkStep (_global_step s) (_batch_step s) (_epoch_step s)
              (Some split)).

Definition set_active (b : bool) : M unit :=
  fun st => mkRes (Ok tt) (mkState (step st) (streams st) (objects st) b) [].

Definition get_active : M bool := fun st => mkRes (Ok (active st)) st [].

Definition reset_global_step : M unit := set_global_step 0.

Definition increment_global_step : M Z :=
  (if negb (test_mode self)
   then gs <- get_global_step ;; set_global_step (gs + 1)
   else ret tt) ;;
  get_global_step.

(** [walk(batch, lambda val: val)] *)
Definition make_feeds (batch : tree loc) : M (tree loc) :=
  walk batch (fun val => ret val).

(** A callback of a hook is entered; the hook reads the step state. *)
Definition enter (hook : hook) (c : callback) : M step_state :=
  s <- get_step ;;
  emit (EvCall (hook_name hook) c (_global_step s)) ;;
  ret s.

(** A callback that returns or raises. *)
Definition call (hook : hook) (c : callback)
    (behaviour : step_state -> option exn) : M unit :=
  s <- enter hook c ;;
  match behaviour s with
  | Some e => raise e
  | None => ret tt
  end.

Definition _handle_exception (e : exn) : M unit :=
  for_each (hooks self)
    (fun hook => call hook (AtException e) (fun s => at_exception hook s e)).

(** [sys.exit(0)] raises [SystemExit(0)]. *)
Definition _handle_sigterm : M unit :=
  let e := ShutdownRequest in
  _handle_exception e ;;
  raise (SystemExit 0).

(** [try: body  except Exception as e: handler(e)] *)
Definition try_except {A} (body : M A) (handler : exn -> M A) : M A :=
  fun st =>
    let r := body st in
    match out r with
    | Ok _ => r
    | Raise e =>
        if is_Exception e
        then let r' := handler e (post r) in
             mkRes (out r') (post r') (tr r ++ tr r')
        else r
    end.

(** *** The streams of the split registry *)

Fixpoint lookup {A} (key : string) (d : list (string * A)) : option A :=
  match d with
  | [] => None
  | (k, v) :: rest => if String.eqb k key then Some v else lookup key rest
  end.

(** [batches[split]] *)
Definition stream_of (batches : list (string * ref)) (split : string)
  : M ref :=
  match lookup split batches with
  | Some r => ret r
  | None => raise KeyError
  end.

Definition set_stream (r : ref) (s : Stm) : M unit :=
  fun st =>
    mkRes (Ok tt)
      (mkState (step st)
         (fun r' => if Nat.eqb r' r then s else streams st r')
         (objects st) (active st)) [].

Definition get_stream (r : ref) : M Stm :=
  fun st => mkRes (Ok (streams st r)) st [].

(** [next(batches[split])] *)
Definition next_batch (batches : list (string * ref)) (split : string)
  : M (tree loc) :=
  r <- stream_of batches split ;;
  s <- get_stream r ;;
  emit (EvNext split r) ;;
  set_stream r (snd (s_next s)) ;;
  match fst (s_next s) with
  | Ok batch => ret batch
  | Raise e => raise e
  end.

(** [batches[split].is_new_epoch] *)
Definition is_new_epoch (batches : list (string * ref)) (split : string)
  : M bool :=
  r <- stream_of batches split ;;
  s <- get_stream r ;;
  ret (s_is_new_epoch s).

(** [batches[split].reset()] *)
Definition reset (batches : list (string * ref)) (split : string)
  : M unit :=
  r <- stream_of batches split ;;
  s <- get_stream r ;;
  emit (EvReset split r) ;;
  set_stream r (s_reset s).

(** [len(batches[split])] *)
Definition len (batches : list (string * ref)) (split : string) : M nat :=
  r <- stream_of batches split ;;
  s <- get_stream r ;;
  ret (s_len s).

(** *** [run]: the fetch graph evaluator *)

(** [fetch_fn(self.model, **feed_dict)]: the double star needs a
    mapping. *)
Definition call_op (fetch_fn : fetch_op) (feed_dict : tree loc) : M Z :=
  match feed_dict with
  | TDict kwargs =>
      emit (EvOp (op_name fetch_fn)) ;;
      fun st =>
        let (o, h) := op_call fetch_fn kwargs (objects st) in
        mkRes o (mkState (step st) (streams st) h (active st)) []
  | _ => raise TypeError
  end.

Definition run (fetches : tree fetch_op) (feed_dict : tree loc)
  : M (tree Z) :=
  emit EvRun ;;
  let fn := fun fetch_fn => call_op fetch_fn feed_dict in
  results <- walk fetches fn ;;
  ret results.

(** *** [run_hooks] *)

(** The results dict of a tick: [{"global_step": ..., split: thunk, ...}]. *)
Record results_t : Type := mkResults {
  r_global_step : Z;
  r_thunks : list (string * M (tree Z))
}.

(** The body of a hook's [after_step]: it calls entries of [results]. *)
Fixpoint run_actions (results : option results_t) (acts : list action)
  : M unit :=
  match acts with
  | [] => ret tt
  | Throw e :: _ => raise e
  | Invoke key :: rest =>
      match results with
      | None => raise TypeError            (* None[key] *)
      | Some r =>
          if String.eqb key "global_step"
          then raise TypeError             (* an int is not callable *)
          else match lookup key (r_thunks r) with
               | None => raise KeyError
               | Some thunk => thunk ;; run_actions results rest
               end
      end
  end.

Definition is_some {A} (o : option A) : bool :=
  match o with Some _ => true | None => false end.

(** [results.keys()] *)
Definition keys (results : option results_t) : list string :=
  match results with
  | Some r => "global_step" :: map fst (r_thunks r)
  | None => []
  end.

(** The body of the loop over the hooks in [run_hooks]. *)
Definition dispatch (index : nat) (results : option results_t)
    (before is_step : bool) (hook : hook) : M unit :=
  if before then
    if is_step
    then call hook (BeforeStep index) (fun s => before_step hook s index)
    else call hook (BeforeEpoch index) (fun s => before_epoch hook s index)
  else
    if is_step
    then s <- enter hook (AfterStep index) ;;
         run_actions results (after_step hook s index (keys results))
    else call hook (AfterEpoch index) (fun s => after_epoch hook s index).

Definition run_hooks (index : nat)
    (fetches : option (tree fetch_op)) (feeds batch : option (tree loc))
    (results : option results_t) (before : bool) (epoch_hooks_arg : bool)
  : M unit :=
  let is_step := is_some fetches && is_some feeds in
  let is_step := is_step || is_some results in
  gs <- get_global_step ;;
  (if hook_freq self =? 0 then raise ZeroDivisionError else ret tt) ;;
  let condition := (gs mod hook_freq self =? 0) || negb is_step in
  let hooks := if negb epoch_hooks_arg then hooks self else epoch_hooks self in
  if condition then for_each hooks (dispatch index results before is_step)
  else ret tt.

(** [self.step_ops()] *)
Definition call_step_ops : M (tree fetch_op) :=
  match step_ops self with
  | Some ops => ret ops
  | None => raise NotImplementedError
  end.

(** *** [_iterate] and [iterate] *)

(** The dict [batches]: the two streams under their split names, the
    validation split defaulting to the training stream (the same
    object) in test mode, and the absent splits dropped. *)
Definition split_registry (batch_iterator : ref)
    (batch_iterator_validation : option ref) : M (list (string * ref)) :=
  batches <-
    (if test_mode self && negb (is_some batch_iterator_validation)
     then emit (EvWarning
                  "No validation batch specified, defaulting to train batch.") ;;
          ret [("train", Some batch_iterator);
               ("validation", Some batch_iterator)]
     else ret [("train", Some batch_iterator);
               ("validation", batch_iterator_validation)]) ;;
  ret (flat_map (fun sb => match snd sb with
                           | Some b => [(fst sb, b)]
                           | None => []
                           end) batches).

(** The thunk [split_op] that [lazy_split_op(split)] returns in the
    batch loop. *)
Definition lazy_split_op (batches : list (string * ref))
    (step_ops : tree fetch_op) (batch_step : nat) (split : string)
  : M (tree Z) :=
  set_split split ;;
  batch <- next_batch batches split ;;
  feeds <- make_feeds batch ;;
  let fetches := TDict [("step_ops", step_ops)] in
  run_hooks batch_step (Some fetches) (Some feeds) (Some batch) None
    true false ;;
  run fetches feeds.

(** The thunk of the per-split loop, which also sets [active]. *)
Definition lazy_split_op_epoch (batches : list (string * ref))
    (step_ops : tree fetch_op) (batch_step : nat) (split : string)
  : M (tree Z) :=
  set_active true ;;
  set_split split ;;
  batch <- next_batch batches split ;;
  feeds <- make_feeds batch ;;
  let fetches := TDict [("step_ops", step_ops)] in
  run_hooks batch_step (Some fetches) (Some feeds) (Some batch) None
    true true ;;
  run fetches feeds.

(** [self.get_global_step() >= self.config.get("num_steps", float("inf"))] *)
Definition budget_reached (gs : Z) : bool :=
  match num_steps self with
  | Some n => n <=? gs
  | None => false
  end.

(** One tick of the batch loop; [true] when it ends in [break]. *)
Definition batch_tick (batches : list (string * ref))
    (step_ops : tree fetch_op) (batch_step : nat) : M bool :=
  emit (EvProgress BarBatch batch_step) ;;
  set_batch_step batch_step ;;
  gs <- get_global_step ;;
  let results :=
    mkResults gs
      (map (fun sb => (fst sb, lazy_split_op batches step_ops batch_step (fst sb)))
         batches) in
  run_hooks batch_step None None None (Some results) false false ;;
  increment_global_step ;;
  new_epoch <- is_new_epoch batches "train" ;;
  gs <- get_global_step ;;
  if new_epoch || budget_reached gs then
    emit (EvInfo "Done with epoch") ;;
    reset batches "train" ;;
    ret true
  else ret false.

(** One tick of the per-split loop; [true] when it ends in [break]. *)
Definition split_tick (batches : list (string * ref))
    (step_ops : tree fetch_op) (split : string) (batch_step : nat)
  : M bool :=
  emit (EvProgress (BarSplit split) batch_step) ;;
  set_batch_step batch_step ;;
  set_active false ;;
  gs <- get_global_step ;;
  let results :=
    mkResults gs
      [(split, lazy_split_op_epoch batches step_ops batch_step split)] in
  run_hooks batch_step None None None (Some results) false true ;;
  new_epoch <- is_new_epoch batches split ;;
  active <- get_active ;;
  if new_epoch || negb active then
    emit (EvInfo ("Done with " ++ split)%string) ;;
    reset batches split ;;
    ret true
  else ret false.

(** The batch loop of one epoch. *)
Definition batch_phase (batches : list (string * ref))
    (step_ops : tree fetch_op) : M unit :=
  num_steps <- (if test_mode self then ret 0%nat else len batches "train") ;;
  for_break (trange BarBatch num_steps) (batch_tick batches step_ops).

(** The per-split loops of one epoch. *)
Definition split_phase (batches : list (string * ref))
    (step_ops : tree fetch_op) (epoch_step : nat) : M unit :=
  for_each (map fst batches) (fun split =>
    run_hooks epoch_step None None None None true true ;;
    n <- len batches split ;;
    for_break (trange (BarSplit split) n) (split_tick batches step_ops split) ;;
    run_hooks epoch_step None None None None false true).

(** The body of the epoch loop. *)
Definition epoch_body (batches : list (string * ref))
    (step_ops : tree fetch_op) (epoch_step : nat) : M unit :=
  emit (EvProgress BarEpoch epoch_step) ;;
  set_epoch_step epoch_step ;;
  run_hooks epoch_step None None None None true false ;;
  batch_phase batches step_ops ;;
  run_hooks epoch_step None None None None false false ;;
  split_phase batches step_ops epoch_step.

Definition _iterate (batch_iterator : ref)
    (batch_iterator_validation : option ref) : M unit :=
  step_ops <- call_step_ops ;;
  batches <- split_registry batch_iterator batch_iterator_validation ;;
  let num_epochs := if test_mode self then 1 else num_epochs self in
  for_each (trange BarEpoch (Z.to_nat num_epochs))
    (epoch_body batches step_ops).

Definition iterate (batch_iterator : ref)
    (batch_iterator_validation : option ref) : M unit :=
  try_except
    (_iterate batch_iterator batch_iterator_validation)
    (fun e => _handle_exception e ;; raise e).

End Iterator.

Arguments M : clear implicits.
Arguments state : clear implicits.
Arguments res : clear implicits.

(** ** A concrete stream *)

(** Modelled from the spec: a split stream that serves the batches of
    one epoch in order and starts over, with the "epoch boundary just
    crossed" flag raised by the pull that served the last batch of the
    epoch.  The iterator works with any [SplitStream]; this one gives
    concrete runs. *)
Record cyclic : Type := mkCyclic {
  c_items : list (tree loc);
  c_pos : nat;
  c_new_epoch : bool
}.

Definition cyclic_next (s : cyclic) : outcome (tree loc) * cyclic :=
  match nth_error (c_items s) (c_pos s) with
  | Some batch =>
      let last := Nat.eqb (Datatypes.S (c_pos s)) (List.length (c_items s)) in
      (Ok batch,
       mkCyclic (c_items s) (if last then 0%nat else Datatypes.S (c_pos s)) last)
  | None => (Raise StopIteration, s)
  end.

#[export] Instance cyclic_stream : SplitStream cyclic := {
  s_next := cyclic_next;
  s_is_new_epoch := c_new_epoch;
  s_reset := fun s => mkCyclic (c_items s) 0%nat false;
  s_len := fun s => List.length (c_items s)
}.

(** ** [CelebA]: preparing and loading the dataset *)

Module CelebA.

(** The pickled [data] dict. *)
Record data : Type := mkData {
  d_fname : list string;
  d_partition : list Z;
  d_identity : list Z;
  d_attributes : list (list Z)
}.

(** The dataset root on disk, as far as [_prepare] and [_load] read and
    write it: the marker that [edu.is_prepared] tests, the unpacked
    image directory, the three tables as [pd.read_csv] parses them (a
    row of the attribute table is its first column and the attribute
    values [v[1:]]), and the data file. *)
Record root : Type := mkRoot {
  prepared : bool;
  content_dir : bool;
  list_eval_partition_txt : list (string * Z);
  list_attr_celeba_txt : list (string * list Z);
  identity_CelebA_txt : list (string * Z);
  data_p : option data
}.

Inductive prep_event : Type :=
| PInfo (msg : string)
| PDownload (file : string)
| PUnpack (file : string)
| PDump
| PMarkPrepared.

Definition FILES : list string :=
  ["img_align_celeba.zip"; "list_eval_partition.txt";
   "identity_CelebA.txt"; "list_attr_celeba.txt"].

Definition CONTENT_DIR : string := "img_align_celeba".

(** [_prepare], with [edu.prompt_download], [edu.unpack] and
    [edu.mark_prepared] as the effects they have on the root. *)
Definition _prepare (fs : root) : outcome unit * root * list prep_event :=
  if negb (prepared fs) then
    let zip_file := hd "" FILES in
    let ev0 := [PInfo "Preparing dataset"; PDownload zip_file] in
    let ev1 := if negb (content_dir fs)
               then [PInfo "Extracting"; PUnpack zip_file] else [] in
    let ev2 := map PDownload (tl FILES) in
    let fs1 := mkRoot false true (list_eval_partition_txt fs)
                 (list_attr_celeba_txt fs) (identity_CelebA_txt fs)
                 (data_p fs) in
    let list_eval_partition := map snd (list_eval_partition_txt fs) in
    let fnames := map fst (list_eval_partition_txt fs) in
    let list_attr_celeba := map snd (list_attr_celeba_txt fs) in
    if negb (Nat.eqb (List.length list_attr_celeba)
               (List.length list_eval_partition))
    then (Raise (ValueError "data files do not match"), fs1,
          ev0 ++ ev1 ++ ev2)
    else
      let identity_celeba := map snd (identity_CelebA_txt fs) in
      let d := mkData (map (fun s => (CONTENT_DIR ++ "/" ++ s)%string) fnames)
                 list_eval_partition identity_celeba list_attr_celeba in
      (Ok tt,
       mkRoot true true (list_eval_partition_txt fs)
         (list_attr_celeba_txt fs) (identity_CelebA_txt fs) (Some d),
       ev0 ++ ev1 ++ ev2 ++ [PDump; PMarkPrepared])
  else (Ok tt, fs, []).

(** The entries of the config that the dataset reads:
    [config.get("test_mode", False)] and, when the config has an entry
    for the dataset, its ["split"]. *)
Record config : Type := mkConfig {
  cfg_test_mode : bool;
  cfg_split : option string
}.

Definition _get_split (cfg : config) : string :=
  let split := if cfg_test_mode cfg then "test" else "train" in
  match cfg_split cfg with
  | Some s => s
  | None => split
  end.

(** [np.where(partition == code)[0]] *)
Fixpoint where_eq (code : Z) (partition : list Z) (i : nat) : list nat :=
  match partition with
  | [] => []
  | p :: rest =>
      if p =? code then i :: where_eq code rest (Datatypes.S i)
      else where_eq code rest (Datatypes.S i)
  end.

(** [array[indices]], which raises [IndexError] out of range. *)
Fixpoint take_indices {A} (xs : list A) (indices : list nat)
  : outcome (list A) :=
  match indices with
  | [] => Ok []
  | i :: rest =>
      match nth_error xs i, take_indices xs rest with
      | Some x, Ok ys => Ok (x :: ys)
      | None, _ => Raise IndexError
      | _, Raise e => Raise e
      end
  end.

(** The dataset object after [__init__]. *)
Record dataset : Type := mkDataset {
  labels : data;
  _length : nat
}.

Definition _load (cfg : config) (fs : root) : outcome dataset :=
  match data_p fs with
  | None => Raise FileNotFoundError
  | Some d =>
      let split := _get_split cfg in
      let code :=
        if String.eqb split "train" then Some 0
        else if String.eqb split "val" then Some 1
        else if String.eqb split "test" then Some 2
        else None in
      match code with
      | None => Raise AssertionError
      | Some c =>
          let split_indices := where_eq c (d_partition d) 0 in
          match take_indices (d_fname d) split_indices,
                take_indices (d_partition d) split_indices,
                take_indices (d_identity d) split_indices,
                take_indices (d_attributes d) split_indices with
          | Ok f, Ok p, Ok i, Ok a =>
              Ok (mkDataset (mkData f p i a) (List.length f))
          | Raise e, _, _, _ => Raise e
          | _, Raise e, _, _ => Raise e
          | _, _, Raise e, _ => Raise e
          | _, _, _, Raise e => Raise e
          end
      end
  end.

(** [CelebA(config)]: [_prepare] then [_load]. *)
Definition __init__ (cfg : config) (fs : root)
  : outcome dataset * root * list prep_event :=
  match _prepare fs with
  | (Ok _, fs', evs) => (_load cfg fs', fs', evs)
  | (Raise e, fs', evs) => (Raise e, fs', evs)
  end.

Definition __len__ (d : dataset) : nat := _length d.

End CelebA.

(** ** The subclasses of [CelebA] *)

Module CelebASplits.

(** [CelebA] and the subclasses that fix the split. *)
Inductive cls : Type :=
| Base
| CelebATrain
| CelebAVal
| CelebATest.

(** [self._get_split()], as the class of [self] defines it. *)
Definition _get_split (c : cls) (cfg : CelebA.config) : string :=
  match c with
  | Base => CelebA._get_split cfg
  | CelebATrain => "train"
  | CelebAVal => "val"
  | CelebATest => "test"
  end.

(** [_load], which the subclasses inherit, with [self._get_split()]
    dispatched on the class. *)
Definition _load (c : cls) (cfg : CelebA.config) (fs : CelebA.root)
  : outcome CelebA.dataset :=
  match CelebA.data_p fs with
  | None => Raise FileNotFoundError
  | Some d =>
      let split := _get_split c cfg in
      let code :=
        if String.eqb split "train" then Some 0
        else if String.eqb split "val" then Some 1
        else if String.eqb split "test" then Some 2
        else None in
      match code with
      | None => Raise AssertionError
      | Some c =>
          let split_indices := CelebA.where_eq c (CelebA.d_partition d) 0 in
          match CelebA.take_indices (CelebA.d_fname d) split_indices,
                CelebA.take_indices (CelebA.d_partition d) split_indices,
                CelebA.take_indices (CelebA.d_identity d) split_indices,
                CelebA.take_indices (CelebA.d_attributes d) split_indices with
          | Ok f, Ok p, Ok i, Ok a =>
              Ok (CelebA.mkDataset (CelebA.mkData f p i a) (List.length f))
          | Raise e, _, _, _ => Raise e
          | _, Raise e, _, _ => Raise e
          | _, _, Raise e, _ => Raise e
          | _, _, _, Raise e => Raise e
          end
      end
  end.

(** The constructor, which the subclasses inherit. *)
Definition __init__ (c : cls) (cfg : CelebA.config) (fs : CelebA.root)
  : outcome CelebA.dataset * CelebA.root * list CelebA.prep_event :=
  match CelebA._prepare fs with
  | (Ok _, fs', evs) => (_load c cfg fs', fs', evs)
  | (Raise e, fs', evs) => (Raise e, fs', evs)
  end.

End CelebASplits.

(** * The vocabulary of the properties *)

(** The global step of a state. *)
Definition gs_of {Stm} (st : state Stm) : Z := _global_step (step st).

(** A relation between the global step before a computation, the events
    of the computation, whether it returned, and the global step
    after it. *)
Definition rel : Type := Z -> list event -> bool -> Z -> Prop.

(** The computation satisfies the relation from every state. *)
Definition respects {Stm A} (R : rel) (m : M Stm A) : Prop :=
  forall st, R (gs_of st) (tr (m st)) (is_Ok (out (m st))) (gs_of (post (m st))).

(** A relation that holds of a step doing nothing, and of two steps in
    a row when it holds of each. *)
Class Lawful (R : rel) : Prop := {
  law_ret : forall g, R g [] true g;
  law_raise : forall g, R g [] false g;
  law_seq : forall g1 t1 g2 t2 b g3,
    R g1 t1 true g2 -> R g2 t2 b g3 -> R g1 (t1 ++ t2) b g3
}.

(** What a relation must hold of for the iterator's primitive steps,
    one class for each kind of step. *)
Class Calling (R : rel) : Prop :=
  ok_call : forall h c g, R g [EvCall h c g] true g.

Class Pulling (R : rel) : Prop :=
  ok_next : forall s r g, R g [EvNext s r] true g.

Class Running (R : rel) : Prop :=
  ok_run : forall g, R g [EvRun] true g.

Class Fetching (R : rel) : Prop :=
  ok_op : forall n g, R g [EvOp n] true g.

Class Resetting (R : rel) : Prop := {
  ok_info : forall msg g, R g [EvInfo msg] true g;
  ok_reset : forall s r g, R g [EvReset s r] true g
}.

Class SplitBar (R : rel) : Prop :=
  ok_split_bar : forall s i g, R g [EvProgress (BarSplit s) i] true g.

Class BatchBar (R : rel) : Prop :=
  ok_batch_bar : forall i g, R g [EvProgress BarBatch i] true g.

Class Incrementing (self : iterator) (R : rel) : Prop :=
  ok_increment : test_mode self = false -> forall g, R g [] true (g + 1).

(** The global step that an event shows to a hook. *)
Definition observed (ev : event) : option Z :=
  match ev with
  | EvCall _ _ g => Some g
  | _ => None
  end.

(** The global steps shown along a trace never decrease: they start at
    [lo] or above, each is at least the one before, and the last is at
    most [hi]. *)
Fixpoint steps_from (lo : Z) (t : list event) (hi : Z) : Prop :=
  match t with
  | [] => lo <= hi
  | ev :: t' =>
      match observed ev with
      | Some g => lo <= g /\ steps_from g t' hi
      | None => steps_from lo t' hi
      end
  end.

(** The number of events of the kind [p] in a trace. *)
Definition count (p : event -> bool) (t : list event) : nat :=
  List.length (filter p t).

(** A tick of the batch loop begins. *)
Definition is_tick (ev : event) : bool :=
  match ev with
  | EvProgress BarBatch _ => true
  | _ => false
  end.

(** The global steps shown along the trace never decrease. *)
Definition non_decreasing : rel := fun g t _ g' => steps_from g t g'.

(** The global step stays, and every callback sees that value. *)
Definition frozen : rel :=
  fun g t _ g' => g' = g /\ Forall (fun ev => forall x, observed ev = Some x -> x = g) t.

(** The global step stays and no event of the kind [p] occurs. *)
Definition quiet (p : event -> bool) : rel :=
  fun g t _ g' => g' = g /\ count p t = 0%nat.

(** The global step has advanced by the number of ticks begun, less
    one when the computation raised in the middle of a tick. *)
Definition counting : rel :=
  fun g t b g' =>
    let n := Z.of_nat (count is_tick t) in
    if b then g' = g + n else g + n - 1 <= g' <= g + n.

(** The parts of a tick of the batch loop: the bar advances
    ([tick_begun]), the hooks run and the step is incremented
    ([incremented]); [tick_pending] is what remains of a tick after its
    bar has advanced. *)
Definition tick_begun : rel :=
  fun g t b g' => g' = g /\ count is_tick t = 1%nat /\ b = true.

Definition tick_pending : rel :=
  fun g t b g' =>
    count is_tick t = 0%nat /\ if b then g' = g + 1 else g <= g' <= g + 1.

Definition incremented : rel :=
  fun g t b g' => g' = g + 1 /\ count is_tick t = 0%nat /\ b = true.

(** A whole tick: one tick begun, the step advanced by one when the
    tick returns. *)
Definition tick_done : rel :=
  fun g t b g' =>
    count is_tick t = 1%nat /\ if b then g' = g + 1 else g <= g' <= g + 1.

(** The events of the hooks' [at_exception], in registration order. *)
Definition at_exception_events (hs : list hook) (e : exn) (g : Z)
  : list event :=
  map (fun h => EvCall (hook_name h) (AtException e) g) hs.

(** The state that a tick of the per-split loop leaves when no hook
    called the thunk and the split is reset. *)
Definition after_idle_tick {Stm} `{SplitStream Stm} (st : state Stm)
    (r : ref) (i : nat) : state Stm :=
  mkState (mkStep (gs_of st) i (_epoch_step (step st)) (_split (step st)))
    (fun r' => if Nat.eqb r' r then s_reset (streams st r) else streams st r')
    (objects st) false.

(** A batch is pulled. *)
Definition is_next (ev : event) : bool :=
  match ev with
  | EvNext _ _ => true
  | _ => false
  end.

(** The fetch graph is run. *)
Definition is_run (ev : event) : bool :=
  match ev with
  | EvRun => true
  | _ => false
  end.

(** The stream object [r] is reset. *)
Definition is_reset_of (r : ref) (ev : event) : bool :=
  match ev with
  | EvReset _ r' => Nat.eqb r' r
  | _ => false
  end.

(** No event of the kind [p] occurs. *)
Definition without (p : event -> bool) : rel :=
  fun _ t _ _ => count p t = 0%nat.


(** A tick that resets [r] at most once, and only when it ends its
    loop. *)
Definition breaks_with {Stm} (p : event -> bool) (r : res Stm bool) : Prop :=
  (count p (tr r) <= 1)%nat /\ (out r = Ok false -> count p (tr r) = 0%nat).


(** A computation that returns, with a value that satisfies [P], from
    every state. *)
Definition returns {Stm A} (P : A -> Prop) (m : M Stm A) : Prop :=
  forall st, exists a, out (m st) = Ok a /\ P a.

(** The callbacks of the hook other than [after_step] return. *)
Definition quiet_callbacks (h : hook) : Prop :=
  forall s i,
    before_epoch h s i = None /\ after_epoch h s i = None /\
    before_step h s i = None.

(** The hook's [after_step] only calls thunks that [results] offers. *)
Definition calls_offered_thunks (h : hook) : Prop :=
  forall s i ks,
    Forall (fun a => exists k, a = Invoke k /\ In k ks /\
                               String.eqb k "global_step" = false)
      (after_step h s i ks).

(** Every pull from a stream returns a batch that is a dict. *)
Definition serves_dicts (Stm : Type) `{SplitStream Stm} : Prop :=
  forall s : Stm, exists kwargs, fst (s_next s) = Ok (TDict kwargs).

(** The fetch op returns, whatever it is given. *)
Definition total_op (op : fetch_op) : Prop :=
  forall kwargs h, exists v, fst (op_call op kwargs h) = Ok v.

(** The structure is a dict. *)
Definition is_dict {A} (t : tree A) : Prop := exists kvs, t = TDict kvs.

(** The bar of the epoch loop advances. *)
Definition is_epoch_bar (ev : event) : bool :=
  match ev with
  | EvProgress BarEpoch _ => true
  | _ => false
  end.

(** ** Vocabulary of the further properties *)


(** The events of an epoch callback [c] on the hooks [hs], in order. *)
Definition callback_events (hs : list hook) (c : callback) (g : Z)
  : list event :=
  map (fun h => EvCall (hook_name h) c g) hs.

(** A computation that leaves the cell [active] set has found it set
    or has pulled a batch. *)
Definition sets_active_by_pulling {Stm A} (m : M Stm A) : Prop :=
  forall st,
    active (post (m st)) = true ->
    active st = true \/ (1 <= count is_next (tr (m st)))%nat.

(** The iterator pulls a batch, runs the fetch graph or calls a fetch
    op. *)
Definition is_work (ev : event) : bool :=
  match ev with
  | EvNext _ _ | EvRun | EvOp _ => true
  | _ => false
  end.

(** The hook's [after_step] never calls an entry of [results]. *)
Definition never_invokes (h : hook) : Prop :=
  forall s i ks k, ~ In (Invoke k) (after_step h s i ks).

(** The partition code of a split name, as [_load] reads it. *)
Definition split_code (split : string) : option Z :=
  if String.eqb split "train" then Some 0
  else if String.eqb split "val" then Some 1
  else if String.eqb split "test" then Some 2
  else None.

(** The entries of a column in the rows whose partition code is
    [code], in the order of the table. *)
Fixpoint select {A} (code : Z) (partition : list Z) (xs : list A) : list A :=
  match partition, xs with
  | p :: ps, x :: xs' =>
      if p =? code then x :: select code ps xs' else select code ps xs'
  | _, _ => []
  end.

(** The number of rows with the partition code [code]. *)
Definition rows_with (code : Z) (partition : list Z) : nat :=
  List.length (filter (fun p => p =? code) partition).

(** The partition code is one of the three that [_load] knows. *)
Definition known_code (p : Z) : bool := (p =? 0) || (p =? 1) || (p =? 2).

(** The root has tables that fit together: as many attribute rows and
    identity rows as partition rows. *)
Definition consistent (fs : CelebA.root) : Prop :=
  List.length (CelebA.list_attr_celeba_txt fs) =
  List.length (CelebA.list_eval_partition_txt fs) /\
  List.length (CelebA.identity_CelebA_txt fs) =
  List.length (CelebA.list_eval_partition_txt fs).

(** * Objects for the examples *)

(** A hook that only watches. *)
Definition watcher (name : nat) : hook :=
  mkHook name (fun _ _ => None) (fun _ _ => None) (fun _ _ => None)
    (fun _ _ _ => []) (fun _ _ => None).


(** A fetch op that returns the value of the leaf object [l]. *)
Definition read_op (name : nat) (l : loc) : fetch_op :=
  mkOp name (fun _ h => (Ok (h l), h)).

(** Two batches with one leaf each, objects 0 and 1. *)
Definition two_batches : cyclic :=
  mkCyclic [TDict [("x", Leaf 0%nat)]; TDict [("x", Leaf 1%nat)]] 0 false.

(** A fresh iterator state: all steps 0, every stream is
    [two_batches], the objects hold [5]. *)
Definition fresh : state cyclic :=
  mkState (mkStep 0 0 0 None) (fun _ => two_batches) (fun _ => 5) false.



(** An iterator that samples every second step. *)
Definition every_second_step : iterator :=
  mkIterator false None 1 2 [watcher 0] [watcher 1]
    (Some (Leaf (read_op 0 0%nat))).

(** A state at the global step [g]. *)
Definition at_step (g : Z) : state cyclic :=
  mkState (mkStep g 0 0 None) (fun _ => two_batches) (fun _ => 5) false.

(** A hook whose [at_exception] raises. *)
Definition faulty_cleanup (name : nat) : hook :=
  mkHook name (fun _ _ => None) (fun _ _ => None) (fun _ _ => None)
    (fun _ _ _ => []) (fun _ _ => Some (UserError 1)).

(** A training hook whose [before_step] raises. *)
Definition faulty_trainer (name : nat) : hook :=
  mkHook name (fun _ _ => None) (fun _ _ => None)
    (fun _ _ => Some (UserError 7))
    (fun _ _ _ => [Invoke "train"]) (fun _ _ => None).

(** Iterators with two step-scoped hooks. *)
Definition two_watchers : iterator :=
  mkIterator false None 1 1 [watcher 0; watcher 1] []
    (Some (Leaf (read_op 0 0%nat))).

Definition faulty_cleanup_first : iterator :=
  mkIterator false None 1 1 [faulty_cleanup 0; watcher 1] []
    (Some (Leaf (read_op 0 0%nat))).


(** A hook that calls every thunk that [results] offers. *)
Definition epoch_trainer (name : nat) : hook :=
  mkHook name (fun _ _ => None) (fun _ _ => None) (fun _ _ => None)
    (fun _ _ ks =>
       map Invoke
         (filter (fun k => negb (String.eqb k "global_step")) ks))
    (fun _ _ => None).

(** An epoch-scoped hook, sampled at every second step. *)
Definition epoch_hooks_every_second_step : iterator :=
  mkIterator false None 1 2 [] [epoch_trainer 0]
    (Some (Leaf (read_op 0 0%nat))).

(** A fetch op that writes [v] into the leaf object under [key] of its
    feeds. *)
Definition poke_op (name : nat) (key : string) (v : Z) : fetch_op :=
  mkOp name (fun kwargs h =>
    match lookup key kwargs with
    | Some (Leaf l) => (Ok 0, upd h l v)
    | _ => (Raise KeyError, h)
    end).

(** A fetch op that returns the value of the leaf object under [key]
    of its feeds. *)
Definition peek_op (name : nat) (key : string) : fetch_op :=
  mkOp name (fun kwargs h =>
    match lookup key kwargs with
    | Some (Leaf l) => (Ok (h l), h)
    | _ => (Raise KeyError, h)
    end).

(** A root that is not prepared, with two rows in the partition table
    and one in the attribute table. *)
Definition mismatched_root : CelebA.root :=
  CelebA.mkRoot false false
    [("000001.jpg", 0); ("000002.jpg", 2)]
    [("000001.jpg", [1; -1])]
    [("000001.jpg", 7); ("000002.jpg", 8)]
    None.

(** A hook that calls the thunk of the train split twice. *)
Definition double_puller (name : nat) : hook :=
  mkHook name (fun _ _ => None) (fun _ _ => None) (fun _ _ => None)
    (fun _ _ _ => [Invoke "train"; Invoke "train"]) (fun _ _ => None).

(** One epoch with that hook. *)
Definition pulling_twice : iterator :=
  mkIterator false None 1 1 [double_puller 0] []
    (Some (Leaf (peek_op 0 "x"))).

(** A state whose leaf object [l] holds [10 + l]. *)
Definition numbered : state cyclic :=
  mkState (mkStep 0 0 0 None) (fun _ => two_batches)
    (fun l => 10 + Z.of_nat l) false.

(** A stream that never runs dry: its state is the number of batches
    pulled since the last reset, the batch after [n] pulls has the one
    leaf object [n], and an epoch has two batches. *)
#[export] Instance endless_stream : SplitStream nat := {
  s_next := fun n => (Ok (TDict [("x", Leaf n)]), Datatypes.S n);
  s_is_new_epoch := fun n => Nat.eqb n 2;
  s_reset := fun _ => 0%nat;
  s_len := fun _ => 2%nat
}.

(** An iterator in test mode with an epoch-scoped hook that calls every
    thunk it is offered. *)
Definition dry_run_with_epoch_hook : iterator :=
  mkIterator true None 5 1 [watcher 0] [epoch_trainer 1]
    (Some (Leaf (read_op 0 0%nat))).

(** A state restored at step 3, over endless streams. *)
Definition restored : state nat :=
  mkState (mkStep 3 0 0 None) (fun _ => 0%nat) (fun _ => 5) false.



(** ** Objects for the further properties *)

(** The base class as it is constructed by default: a hundred epochs,
    hooks at every hundredth step, [step_ops] not overridden. *)
Definition abstract_base : iterator :=
  mkIterator false None 100 100 [watcher 0; watcher 1] [] None.



(** A training hook whose [before_step] raises, followed by a hook
    whose [at_exception] raises, followed by a hook that only watches. *)
Definition failing_then_faulty_cleanup : iterator :=
  mkIterator false None 1 1 [faulty_trainer 0; faulty_cleanup 1; watcher 2]
    [] (Some (Leaf (read_op 0 0%nat))).

(** Two epochs of training with a step-scoped and an epoch-scoped hook
    that call every thunk they are offered. *)
Definition retrieving_run : iterator :=
  mkIterator false None 2 1 [epoch_trainer 0] [epoch_trainer 1]
    (Some (Leaf (read_op 0 0%nat))).

(** An iterator whose hook frequency is zero. *)
Definition zero_freq : iterator :=
  mkIterator false None 3 0 [watcher 0] [watcher 1]
    (Some (Leaf (read_op 0 0%nat))).

(** Three epochs with a step budget of 1. *)
Definition budgeted_epochs : iterator :=
  mkIterator false (Some 1) 3 1 [watcher 0] []
    (Some (Leaf (read_op 0 0%nat))).

(** The same training run with hooks that only watch. *)
Definition watched_run : iterator :=
  mkIterator false None 2 1 [watcher 0] [watcher 1]
    (Some (Leaf (read_op 0 0%nat))).

(** A root that is not prepared, with four rows in every table. *)
Definition four_rows : CelebA.root :=
  CelebA.mkRoot false false
    [("000001.jpg", 0); ("000002.jpg", 2); ("000003.jpg", 1);
     ("000004.jpg", 0)]
    [("000001.jpg", [1; -1]); ("000002.jpg", [-1; -1]);
     ("000003.jpg", [1; 1]); ("000004.jpg", [-1; 1])]
    [("000001.jpg", 7); ("000002.jpg", 8); ("000003.jpg", 7);
     ("000004.jpg", 9)]
    None.

(** The same with an identity table that ends after two rows. *)
Definition truncated_identities : CelebA.root :=
  CelebA.mkRoot false false
    (CelebA.list_eval_partition_txt four_rows)
    (CelebA.list_attr_celeba_txt four_rows)
    [("000001.jpg", 7); ("000002.jpg", 8)]
    None.

(** * Properties *)

(** ** The feed payload *)

Section Feeds.

Context {Stm : Type} `{SplitStream Stm}.

Lemma bind_ret_l {A B} (a : A) (f : A -> M Stm B) (st : state Stm) :
  bind (ret a) f st = f a st.
Proof. unfold bind, ret; simpl. destruct (f a st); reflexivity. Qed.

Lemma walk_identity {A} (t : tree A) (st : state Stm) :
  walk t (fun val => ret val) st = mkRes (Ok t) st [].
Proof.
  revert st. induction t as [a | xs IH | kvs IH] using tree_nested_ind;
    intros st.
  - reflexivity.
  - cbn [walk].
    assert (E : forall st',
      (fix go (l : list (tree A)) : M Stm (list (tree A)) :=
         match l with
         | [] => ret []
         | x :: r =>
             bind (walk x (fun val => ret val))
               (fun y => bind (go r) (fun ys => ret (y :: ys)))
         end) xs st' = mkRes (Ok xs) st' []).
    { induction IH as [| x r Hx _ IHr]; intros st'; [reflexivity |].
      unfold bind. rewrite Hx. cbn [out post tr].
      rewrite IHr. reflexivity. }
    unfold bind at 1. rewrite E. reflexivity.
  - cbn [walk].
    assert (E : forall st',
      (fix go (l : list (string * tree A)) : M Stm (list (string * tree A)) :=
         match l with
         | [] => ret []
         | (k, v) :: r =>
             bind (walk v (fun val => ret val))
               (fun y => bind (go r) (fun ys => ret ((k, y) :: ys)))
         end) kvs st' = mkRes (Ok kvs) st' []).
    { induction IH as [| [k v] r Hx _ IHr]; intros st'; [reflexivity |].
      unfold bind. simpl in Hx. rewrite Hx. cbn [out post tr].
      rewrite IHr. reflexivity. }
    unfold bind at 1. rewrite E. reflexivity.
Qed.

End Feeds.

(** ** Relations carried through the control flow *)

(** Many properties of the loop relate the global step at the start of
    a computation, the events it produces, whether it returns, and the
    global step at its end.  Such a relation is proved once for the
    primitive steps and carried through the control flow. *)

Section Monad.

Context {Stm : Type} `{SplitStream Stm}.

Lemma bind_Ok {A B} (m : M Stm A) (f : A -> M Stm B) st a :
  out (m st) = Ok a ->
  bind m f st =
  mkRes (out (f a (post (m st)))) (post (f a (post (m st))))
    (tr (m st) ++ tr (f a (post (m st)))).
Proof. intros E. unfold bind. rewrite E. reflexivity. Qed.

Lemma bind_Raise {A B} (m : M Stm A) (f : A -> M Stm B) st e :
  out (m st) = Raise e ->
  bind m f st = mkRes (Raise e) (post (m st)) (tr (m st)).
Proof. intros E. unfold bind. rewrite E. reflexivity. Qed.

Context (R : rel) `{!Lawful R}.

Lemma respects_ret {A} (a : A) : respects R (ret (Stm := Stm) a).
Proof. intros st. apply law_ret. Qed.

Lemma respects_raise {A} (e : exn) : respects R (raise (Stm := Stm) (A := A) e).
Proof. intros st. apply law_raise. Qed.

Lemma respects_bind {A B} (m : M Stm A) (f : A -> M Stm B) :
  respects R m -> (forall a, respects R (f a)) -> respects R (bind m f).
Proof.
  intros Hm Hf st. specialize (Hm st).
  destruct (out (m st)) as [a | e] eqn:E.
  - rewrite (bind_Ok _ _ _ E). cbn [out post tr].
    eapply law_seq; [exact Hm | apply Hf].
  - rewrite (bind_Raise _ _ _ E). exact Hm.
Qed.

(** A step that produces no event, keeps the global step and may
    raise. *)
Lemma respects_silent {A} (m : M Stm A) :
  (forall st, tr (m st) = [] /\ gs_of (post (m st)) = gs_of st) ->
  respects R m.
Proof.
  intros Hm st. destruct (Hm st) as [Ht Hg]. rewrite Ht, Hg.
  destruct (out (m st)); [apply law_ret | apply law_raise].
Qed.

(** A step that produces one event, keeps the global step and
    returns. *)
Lemma respects_emit (ev : event) :
  (forall g, R g [ev] true g) -> respects R (emit (Stm := Stm) ev).
Proof. intros Hev st. apply Hev. Qed.

Lemma respects_for_each {A} (xs : list A) (body : A -> M Stm unit) :
  (forall x, In x xs -> respects R (body x)) -> respects R (for_each xs body).
Proof.
  induction xs as [| x xs IH]; intros Hb; cbn [for_each].
  - apply respects_ret.
  - apply respects_bind; [apply Hb; left; reflexivity |].
    intros _. apply IH. intros y Hy. apply Hb. right. exact Hy.
Qed.

Lemma respects_for_break {A} (xs : list A) (body : A -> M Stm bool) :
  (forall x, respects R (body x)) -> respects R (for_break xs body).
Proof.
  intros Hb. induction xs as [| x xs IH]; cbn [for_break].
  - apply respects_ret.
  - apply respects_bind; [apply Hb |].
    intros [|]; [apply respects_ret | exact IH].
Qed.

Lemma respects_walk {A B} (t : tree A) (fn : A -> M Stm B) :
  (forall a, respects R (fn a)) -> respects R (walk t fn).
Proof.
  intros Hfn.
  induction t as [a | xs IH | kvs IH] using tree_nested_ind; cbn [walk].
  - apply respects_bind; [apply Hfn | intros b; apply respects_ret].
  - apply respects_bind; [| intros ys; apply respects_ret].
    induction IH as [| x r Hx _ IHr]; [apply respects_ret |].
    apply respects_bind; [exact Hx | intros y].
    apply respects_bind; [exact IHr | intros ys; apply respects_ret].
  - apply respects_bind; [| intros ys; apply respects_ret].
    induction IH as [| [k v] r Hx _ IHr]; [apply respects_ret |].
    apply respects_bind; [exact Hx | intros y].
    apply respects_bind; [exact IHr | intros ys; apply respects_ret].
Qed.

End Monad.

(** *** The relation carried through the iterator *)

Create HintDb carry discriminated.

Ltac silent :=
  apply respects_silent; [exact _ |]; intros ?; split; reflexivity.

Ltac emitting :=
  apply respects_emit; intros ?;
  first [ apply ok_call | apply ok_next | apply ok_run | apply ok_op
        | apply ok_info | apply ok_reset | apply ok_split_bar
        | apply ok_batch_bar
        | match goal with Hev : forall _ _, _ |- _ => apply Hev end ].

Ltac branch :=
  match goal with
  | |- respects _ (match ?c with _ => _ end) => destruct c eqn:?
  end.

Ltac carry :=
  repeat first
    [ solve [auto with carry typeclass_instances]
    | match goal with
      | |- respects _ (ret _) => apply respects_ret; exact _
      | |- respects _ (raise _) => apply respects_raise; exact _
      | |- respects _ (bind _ _) =>
          apply respects_bind; [exact _ | | intros ?]
      | |- respects _ (emit _) => emitting
      | |- respects _ get_step => silent
      | |- respects _ (put_step _) => silent
      | |- respects _ (get_stream _) => silent
      | |- respects _ (set_stream _ _) => silent
      | |- respects _ get_active => silent
      | |- respects _ (set_active _) => silent
      end
    | branch ].


Section Carry.

Context {Stm : Type} `{SplitStream Stm}.
Variable self : iterator.
Context (R : rel) `{!Lawful R}.

Lemma respects_stream_of batches split :
  respects R (stream_of (Stm := Stm) batches split).
Proof. unfold stream_of. carry. Qed.
#[local] Hint Resolve respects_stream_of : carry.

Lemma respects_make_feeds batch : respects R (make_feeds (Stm := Stm) batch).
Proof.
  unfold make_feeds. apply respects_walk; [exact _ |]. intros a. carry.
Qed.
#[local] Hint Resolve respects_make_feeds : carry.

Lemma respects_is_new_epoch batches split :
  respects R (is_new_epoch batches split).
Proof. unfold is_new_epoch. carry. Qed.
#[local] Hint Resolve respects_is_new_epoch : carry.

Lemma respects_len batches split : respects R (len batches split).
Proof. unfold len. carry. Qed.
#[local] Hint Resolve respects_len : carry.

Lemma respects_set_split split : respects R (set_split (Stm := Stm) split).
Proof. silent. Qed.

Lemma respects_set_batch_step i : respects R (set_batch_step (Stm := Stm) i).
Proof. silent. Qed.

Lemma respects_set_epoch_step i : respects R (set_epoch_step (Stm := Stm) i).
Proof. silent. Qed.

Lemma respects_get_global_step : respects R (get_global_step (Stm := Stm)).
Proof. silent. Qed.
#[local] Hint Resolve respects_set_split respects_set_batch_step
  respects_set_epoch_step respects_get_global_step : carry.

Section Dispatch.

Context `{!Calling R} `{!Pulling R} `{!Running R} `{!Fetching R}.

Lemma respects_enter hook c : respects R (enter (Stm := Stm) hook c).
Proof. intros st. apply ok_call. Qed.
#[local] Hint Resolve respects_enter : carry.

Lemma respects_call hook c behaviour :
  respects R (call (Stm := Stm) hook c behaviour).
Proof. unfold call. carry. Qed.
#[local] Hint Resolve respects_call : carry.

Lemma respects_handle_exception e :
  respects R (_handle_exception (Stm := Stm) self e).
Proof.
  unfold _handle_exception. apply respects_for_each; [exact _ |].
  intros hook _. carry.
Qed.

Lemma respects_next_batch batches split :
  respects R (next_batch batches split).
Proof. unfold next_batch. carry. Qed.
#[local] Hint Resolve respects_next_batch : carry.

Lemma respects_call_op fetch_fn feed_dict :
  respects R (call_op (Stm := Stm) fetch_fn feed_dict).
Proof.
  unfold call_op. carry.
  apply respects_silent; [exact _ |]. intros st.
  destruct (op_call fetch_fn _ (objects st)); split; reflexivity.
Qed.

Lemma respects_run fetches feed_dict :
  respects R (run (Stm := Stm) fetches feed_dict).
Proof.
  unfold run. carry.
  apply respects_walk; [exact _ |]. intros op. apply respects_call_op.
Qed.
#[local] Hint Resolve respects_run : carry.

Lemma lookup_In {A} key (d : list (string * A)) v :
  lookup key d = Some v -> exists k, In (k, v) d.
Proof.
  induction d as [| [k w] l IHl]; [discriminate |].
  cbn [lookup]. destruct (String.eqb k key); intros E.
  - injection E as ->. exists k. left. reflexivity.
  - destruct (IHl E) as [k' Hk']. exists k'. right. exact Hk'.
Qed.

Lemma respects_run_actions results acts :
  (forall r key thunk,
     results = Some r -> In (key, thunk) (r_thunks r) -> respects R thunk) ->
  respects R (run_actions (Stm := Stm) results acts).
Proof.
  intros Hth. induction acts as [| [key | e] rest IH]; cbn [run_actions]; carry.
  match goal with
  | E : lookup _ _ = Some ?thunk |- _ =>
      destruct (lookup_In _ _ E) as [k Hk]; exact (Hth _ k thunk eq_refl Hk)
  end.
Qed.

Lemma respects_run_hooks index fetches feeds batch results before eh :
  (forall r key thunk,
     results = Some r -> In (key, thunk) (r_thunks r) -> respects R thunk) ->
  respects R
    (run_hooks (Stm := Stm) self index fetches feeds batch results before eh).
Proof.
  intros Hth. unfold run_hooks. carry.
  apply respects_for_each; [exact _ |]. intros hook _. unfold dispatch. carry.
  apply respects_run_actions. exact Hth.
Qed.

Lemma respects_run_hooks_no_results index fetches feeds batch before eh :
  respects R
    (run_hooks (Stm := Stm) self index fetches feeds batch None before eh).
Proof. apply respects_run_hooks. intros r key thunk E. discriminate E. Qed.
#[local] Hint Resolve respects_run_hooks_no_results : carry.

Lemma respects_lazy_split_op batches ops batch_step split :
  respects R (lazy_split_op self batches ops batch_step split).
Proof. unfold lazy_split_op. carry. Qed.

Lemma respects_lazy_split_op_epoch batches ops batch_step split :
  respects R (lazy_split_op_epoch self batches ops batch_step split).
Proof. unfold lazy_split_op_epoch. carry. Qed.

Section Ticks.

Context `{!Resetting R} `{!SplitBar R} `{!BatchBar R}
  `{!Incrementing self R}.

Lemma respects_reset batches split : respects R (reset batches split).
Proof. unfold reset. carry. Qed.
#[local] Hint Resolve respects_reset : carry.

Lemma respects_increment_global_step :
  respects R (increment_global_step (Stm := Stm) self).
Proof.
  unfold increment_global_step.
  apply respects_bind; [exact _ | | intros _; carry].
  destruct (test_mode self) eqn:E; cbn [negb]; [carry |].
  intros st. cbn. apply ok_increment. exact E.
Qed.
#[local] Hint Resolve respects_increment_global_step : carry.

Lemma respects_batch_tick batches ops batch_step :
  respects R (batch_tick self batches ops batch_step).
Proof.
  unfold batch_tick. carry.
  apply respects_run_hooks. intros r key thunk E Hin.
  injection E as <-. cbn [r_thunks] in Hin.
  apply in_map_iff in Hin. destruct Hin as [sb [E _]].
  injection E as _ <-. apply respects_lazy_split_op.
Qed.

Lemma respects_split_tick batches ops split batch_step :
  respects R (split_tick self batches ops split batch_step).
Proof.
  unfold split_tick. carry.
  apply respects_run_hooks. intros r key thunk E Hin.
  injection E as <-. cbn [r_thunks] in Hin.
  destruct Hin as [E | []]. injection E as _ <-.
  apply respects_lazy_split_op_epoch.
Qed.

End Ticks.

End Dispatch.

(** The loops of [_iterate], from what holds of their ticks. *)
Section Phases.

Hypothesis epoch_dispatch : forall index before eh,
  respects R
    (run_hooks (Stm := Stm) self index None None None None before eh).
Hypothesis batch_ticks : forall batches ops batch_step,
  respects R (batch_tick self batches ops batch_step).
Hypothesis split_ticks : forall batches ops split batch_step,
  respects R (split_tick self batches ops split batch_step).
Hypothesis epoch_bar : forall i g, R g [EvProgress BarEpoch i] true g.
Hypothesis warnings : forall msg g, R g [EvWarning msg] true g.

#[local] Hint Resolve epoch_dispatch batch_ticks split_ticks : carry.

Lemma respects_batch_phase batches ops :
  respects R (batch_phase self batches ops).
Proof.
  unfold batch_phase. carry. apply respects_for_break; [exact _ |].
  intros i. carry.
Qed.

Lemma respects_split_phase batches ops epoch_step :
  respects R (split_phase self batches ops epoch_step).
Proof.
  unfold split_phase. apply respects_for_each; [exact _ |].
  intros split _. carry. apply respects_for_break; [exact _ |].
  intros i. carry.
Qed.

Lemma respects_epoch_body batches ops epoch_step :
  respects R (epoch_body self batches ops epoch_step).
Proof.
  unfold epoch_body. carry.
  - apply respects_batch_phase.
  - apply respects_split_phase.
Qed.

Lemma respects_split_registry bi biv :
  respects R (split_registry (Stm := Stm) self bi biv).
Proof.
  unfold split_registry. carry.
Qed.

Lemma respects__iterate bi biv : respects R (_iterate self bi biv).
Proof.
  unfold _iterate, call_step_ops. carry.
  - apply respects_split_registry.
  - apply respects_for_each; [exact _ |]. intros i _.
    apply respects_epoch_body.
Qed.

Hypothesis handler : forall e,
  respects R (_handle_exception (Stm := Stm) self e).
Hypothesis catch : forall g1 t1 g2 t2 g3,
  R g1 t1 false g2 -> R g2 t2 false g3 -> R g1 (t1 ++ t2) false g3.

Lemma respects_iterate bi biv : respects R (iterate self bi biv).
Proof.
  intros st. unfold iterate, try_except.
  pose proof (respects__iterate bi biv st) as Hi.
  destruct (out (_iterate self bi biv st)) as [[] | e] eqn:E.
  - rewrite E. exact Hi.
  - destruct (is_Exception e); [| rewrite E; exact Hi].
    cbn [out post tr].
    assert (Hh : respects R (bind (_handle_exception (Stm := Stm) self e)
                               (fun _ => raise (A := unit) e))).
    { carry. }
    specialize (Hh (post (_iterate self bi biv st))).
    assert (Hraise : out (bind (_handle_exception (Stm := Stm) self e)
                            (fun _ => raise (A := unit) e)
                            (post (_iterate self bi biv st))) <> Ok tt).
    { unfold bind, raise.
      destruct (out (_handle_exception self e _)); cbn; discriminate. }
    destruct (out (bind _ _ _)) as [[] | e'] eqn:E'; [congruence |].
    cbn [is_Ok] in *. eapply catch; eassumption.
Qed.

End Phases.

End Carry.

#[global] Hint Resolve respects_stream_of respects_make_feeds
  respects_is_new_epoch respects_len respects_set_split
  respects_set_batch_step respects_set_epoch_step respects_get_global_step
  respects_enter respects_call respects_handle_exception respects_next_batch
  respects_call_op respects_run respects_run_hooks_no_results
  respects_lazy_split_op respects_lazy_split_op_epoch respects_reset
  respects_increment_global_step respects_batch_tick respects_split_tick
  : carry.

Section Mixed.

Context {Stm : Type} `{SplitStream Stm}.

Lemma respects_weaken {A} (R R' : rel) (m : M Stm A) :
  (forall g t b g', R g t b g' -> R' g t b g') ->
  respects R m -> respects R' m.
Proof. intros HR Hm st. apply HR. apply Hm. Qed.

(** Two steps in a row, each with a relation of its own. *)
Lemma respects_bind_mixed {A B} (R1 R2 R3 : rel)
    (m : M Stm A) (f : A -> M Stm B) :
  (forall g1 t1 g2, R1 g1 t1 false g2 -> R3 g1 t1 false g2) ->
  (forall g1 t1 g2 t2 b g3,
     R1 g1 t1 true g2 -> R2 g2 t2 b g3 -> R3 g1 (t1 ++ t2) b g3) ->
  respects R1 m -> (forall a, respects R2 (f a)) -> respects R3 (bind m f).
Proof.
  intros Hfail Hseq Hm Hf st. specialize (Hm st).
  destruct (out (m st)) as [a | e] eqn:E.
  - rewrite (bind_Ok _ _ _ E). cbn [out post tr].
    eapply Hseq; [exact Hm | apply Hf].
  - rewrite (bind_Raise _ _ _ E). apply Hfail. exact Hm.
Qed.

(** What [iterate] adds to [_iterate]: nothing, unless [_iterate]
    raised an [Exception]; then the hooks' [at_exception], after which
    the exception is raised again (or the one that an [at_exception]
    raised). *)
Lemma iterate_cases (self : iterator) bi biv (st : state Stm) :
  let r := _iterate self bi biv st in
  (iterate self bi biv st = r /\
   (out r = Ok tt \/ exists e, out r = Raise e /\ is_Exception e = false)) \/
  (exists e, out r = Raise e /\ is_Exception e = true /\
     let h := _handle_exception self e (post r) in
     iterate self bi biv st =
     mkRes (match out h with Ok _ => Raise e | Raise e' => Raise e' end)
       (post h) (tr r ++ tr h)).
Proof.
  cbn zeta. unfold iterate, try_except.
  destruct (out (_iterate self bi biv st)) as [[] | e] eqn:E.
  - left. split; [reflexivity | left; reflexivity].
  - destruct (is_Exception e) eqn:Ee.
    + right. exists e. split; [reflexivity |]. split; [exact Ee |].
      unfold bind, raise. cbn [out post tr].
      destruct (out (_handle_exception self e _)); cbn [out post tr];
        rewrite ?app_nil_r; reflexivity.
    + left. split; [reflexivity |]. right. exists e. split; [reflexivity | exact Ee].
Qed.

End Mixed.

(** ** The global step *)

Lemma count_app p t1 t2 : count p (t1 ++ t2) = (count p t1 + count p t2)%nat.
Proof. unfold count. rewrite filter_app, length_app. reflexivity. Qed.

Lemma count_cons p ev t :
  count p (ev :: t) = ((if p ev then 1 else 0) + count p t)%nat.
Proof. unfold count. cbn [filter]. destruct (p ev); reflexivity. Qed.

Lemma steps_from_le lo t hi : steps_from lo t hi -> lo <= hi.
Proof.
  revert lo. induction t as [| ev t IH]; intros lo; cbn [steps_from]; [tauto |].
  destruct (observed ev) as [g |].
  - intros [Hlo Hs]. specialize (IH _ Hs). lia.
  - apply IH.
Qed.

Lemma steps_from_weaken lo lo' t hi :
  lo' <= lo -> steps_from lo t hi -> steps_from lo' t hi.
Proof.
  revert lo lo'. induction t as [| ev t IH]; intros lo lo' Hle;
    cbn [steps_from]; [lia |].
  destruct (observed ev) as [g |].
  - intros [Hlo Hs]. split; [lia | exact Hs].
  - apply IH. exact Hle.
Qed.

Lemma steps_from_app g1 t1 g2 t2 g3 :
  steps_from g1 t1 g2 -> steps_from g2 t2 g3 -> steps_from g1 (t1 ++ t2) g3.
Proof.
  revert g1. induction t1 as [| ev t1 IH]; intros g1; cbn [steps_from app].
  - intros Hle Hs. exact (steps_from_weaken _ _ Hle Hs).
  - destruct (observed ev) as [g |].
    + intros [Hlo Hs1] Hs2. split; [exact Hlo | exact (IH _ Hs1 Hs2)].
    + apply IH.
Qed.

#[export] Instance non_decreasing_lawful : Lawful non_decreasing.
Proof.
  split; unfold non_decreasing.
  - intros g. cbn. lia.
  - intros g. cbn. lia.
  - intros g1 t1 g2 t2 _ g3. apply steps_from_app.
Qed.

#[export] Instance non_decreasing_calling : Calling non_decreasing.
Proof. intros h c g. cbn. lia. Qed.
#[export] Instance non_decreasing_pulling : Pulling non_decreasing.
Proof. intros s r g. cbn. lia. Qed.
#[export] Instance non_decreasing_running : Running non_decreasing.
Proof. intros g. cbn. lia. Qed.
#[export] Instance non_decreasing_fetching : Fetching non_decreasing.
Proof. intros n g. cbn. lia. Qed.
#[export] Instance non_decreasing_resetting : Resetting non_decreasing.
Proof. split; intros; cbn; lia. Qed.
#[export] Instance non_decreasing_split_bar : SplitBar non_decreasing.
Proof. intros s i g. cbn. lia. Qed.
#[export] Instance non_decreasing_batch_bar : BatchBar non_decreasing.
Proof. intros i g. cbn. lia. Qed.
#[export] Instance non_decreasing_incrementing self :
  Incrementing self non_decreasing.
Proof. intros _ g. cbn. lia. Qed.

#[export] Instance frozen_lawful : Lawful frozen.
Proof.
  split; unfold frozen.
  - intros g. split; [reflexivity | constructor].
  - intros g. split; [reflexivity | constructor].
  - intros g1 t1 g2 t2 _ g3 [-> H1] [-> H2]. split; [reflexivity |].
    apply Forall_app. split; assumption.
Qed.

Ltac frozen_event :=
  unfold frozen; intros; split; [reflexivity |];
  repeat constructor; cbn; intros; congruence.

#[export] Instance frozen_calling : Calling frozen.
Proof. intros h c g. frozen_event. Qed.
#[export] Instance frozen_pulling : Pulling frozen.
Proof. intros s r g. frozen_event. Qed.
#[export] Instance frozen_running : Running frozen.
Proof. intros g. frozen_event. Qed.
#[export] Instance frozen_fetching : Fetching frozen.
Proof. intros n g. frozen_event. Qed.
#[export] Instance frozen_resetting : Resetting frozen.
Proof. split; frozen_event. Qed.
#[export] Instance frozen_split_bar : SplitBar frozen.
Proof. intros s i g. frozen_event. Qed.

#[export] Instance frozen_batch_bar : BatchBar frozen.
Proof. intros i g. frozen_event. Qed.

Lemma frozen_incrementing self :
  test_mode self = true -> Incrementing self frozen.
Proof. intros E E'. congruence. Qed.

#[export] Instance quiet_lawful p : Lawful (quiet p).
Proof.
  split; unfold quiet.
  - intros g. split; reflexivity.
  - intros g. split; reflexivity.
  - intros g1 t1 g2 t2 _ g3 [-> H1] [-> H2]. split; [reflexivity |].
    rewrite count_app, H1, H2. reflexivity.
Qed.

#[export] Instance quiet_tick_calling : Calling (quiet is_tick).
Proof. intros h c g. split; reflexivity. Qed.
#[export] Instance quiet_tick_pulling : Pulling (quiet is_tick).
Proof. intros s r g. split; reflexivity. Qed.
#[export] Instance quiet_tick_running : Running (quiet is_tick).
Proof. intros g. split; reflexivity. Qed.
#[export] Instance quiet_tick_fetching : Fetching (quiet is_tick).
Proof. intros n g. split; reflexivity. Qed.
#[export] Instance quiet_tick_resetting : Resetting (quiet is_tick).
Proof. split; intros; split; reflexivity. Qed.
#[export] Instance quiet_tick_split_bar : SplitBar (quiet is_tick).
Proof. intros s i g. split; reflexivity. Qed.

#[export] Instance counting_lawful : Lawful counting.
Proof.
  split; unfold counting; cbn zeta.
  - intros g. cbn. lia.
  - intros g. cbn. lia.
  - intros g1 t1 g2 t2 b g3 H1 H2. rewrite count_app, Nat2Z.inj_add.
    destruct b; lia.
Qed.

Lemma quiet_counting g t b g' : quiet is_tick g t b g' -> counting g t b g'.
Proof.
  unfold quiet, counting. intros [-> E]. rewrite E. destruct b; cbn; lia.
Qed.

Section GlobalStep.

Context {Stm : Type} `{SplitStream Stm}.
Variable self : iterator.

Lemma pending_after_quiet {A B} (m : M Stm A) (f : A -> M Stm B) :
  respects (quiet is_tick) m -> (forall a, respects tick_pending (f a)) ->
  respects tick_pending (bind m f).
Proof.
  apply respects_bind_mixed.
  - intros g1 t1 g2 [-> E]. split; [exact E | lia].
  - intros g1 t1 g2 t2 b g3 [-> E1] [E2 Hg]. split; [| exact Hg].
    rewrite count_app, E1, E2. reflexivity.
Qed.

Lemma thunks_respect (R : rel) `{!Lawful R} `{!Calling R} `{!Pulling R}
    `{!Running R} `{!Fetching R} batches ops batch_step gs r key thunk :
  Some (mkResults gs
          (map (fun sb => (fst sb, lazy_split_op self batches ops batch_step (fst sb)))
             batches)) = Some r ->
  In (key, thunk) (r_thunks r) -> respects R thunk.
Proof.
  intros E Hin. injection E as <-. cbn [r_thunks] in Hin.
  apply in_map_iff in Hin. destruct Hin as [sb [E _]].
  injection E as _ <-. apply respects_lazy_split_op; exact _.
Qed.

Lemma batch_tick_done batches ops batch_step :
  test_mode self = false ->
  respects tick_done (batch_tick self batches ops batch_step).
Proof.
  intros Etest. unfold batch_tick.
  apply (respects_bind_mixed (R1 := tick_begun) (R2 := tick_pending)).
  - intros g1 t1 g2 (_ & _ & E). discriminate E.
  - intros g1 t1 g2 t2 b g3 (-> & E1 & _) [E2 Hg]. split; [| exact Hg].
    rewrite count_app, E1, E2. reflexivity.
  - intros st. repeat split.
  - intros _. apply pending_after_quiet; [carry | intros _].
    apply pending_after_quiet; [carry | intros gs].
    apply pending_after_quiet.
    { apply respects_run_hooks; try exact _. apply thunks_respect; exact _. }
    intros _.
    apply (respects_bind_mixed (R1 := incremented) (R2 := quiet is_tick)).
    + intros g1 t1 g2 (_ & _ & E). discriminate E.
    + intros g1 t1 g2 t2 b g3 (-> & E1 & _) [-> E2]. split.
      * rewrite count_app, E1, E2. reflexivity.
      * destruct b; lia.
    + intros st. unfold increment_global_step. rewrite Etest. repeat split.
    + intros _. carry.
Qed.

Lemma batch_tick_counting batches ops batch_step :
  test_mode self = false ->
  respects counting (batch_tick self batches ops batch_step).
Proof.
  intros Etest. eapply respects_weaken; [| apply batch_tick_done; exact Etest].
  intros g t b g' [E Hg]. unfold counting. rewrite E. destruct b; cbn; lia.
Qed.

Lemma _iterate_counting bi biv :
  test_mode self = false -> respects counting (_iterate self bi biv).
Proof.
  intros Etest. apply respects__iterate; try exact _.
  - intros index before eh.
    eapply respects_weaken; [exact quiet_counting | carry].
  - intros batches ops batch_step. apply batch_tick_counting. exact Etest.
  - intros batches ops split batch_step.
    eapply respects_weaken; [exact quiet_counting | carry].
  - intros i g. cbn. lia.
  - intros msg g. cbn. lia.
Qed.

Lemma iterate_counting bi biv :
  test_mode self = false -> respects counting (iterate self bi biv).
Proof.
  intros Etest st. pose proof (_iterate_counting bi biv Etest st) as Hi.
  destruct (iterate_cases self bi biv st) as [[-> _] | (e & E & _ & ->)];
    [exact Hi |].
  assert (Hh : respects (quiet is_tick) (_handle_exception (Stm := Stm) self e))
    by carry.
  destruct (Hh (post (_iterate self bi biv st))) as [Hg Hc].
  rewrite E in Hi. cbn [is_Ok] in Hi. revert Hi. unfold counting.
  cbn [out post tr]. rewrite count_app, Hc, Hg, Nat.add_0_r.
  destruct (out (_handle_exception self e _)); cbn [is_Ok]; tauto.
Qed.


Lemma iterate_frozen bi biv :
  test_mode self = true -> respects frozen (iterate self bi biv).
Proof.
  intros Etest. pose proof (frozen_incrementing self Etest) as Ht.
  apply respects_iterate; try exact _; try solve [intros; carry].
  - intros i g. frozen_event.
  - intros msg g. frozen_event.
  - intros g1 t1 g2 t2 g3 [-> H1] [-> H2]. split; [reflexivity |].
    apply Forall_app. split; assumption.
Qed.

End GlobalStep.



(** ** Hook dispatch *)

Section Sampling.

Context {Stm : Type} `{SplitStream Stm}.
Variable self : iterator.

Lemma res_eta {A} (r : res Stm A) : mkRes (out r) (post r) (tr r) = r.
Proof. destruct r; reflexivity. Qed.

(** [run_hooks] with a hook frequency other than zero: the sampling
    condition, then the loop over the hooks. *)
Lemma run_hooks_unfold index fetches feeds batch results before eh
    (st : state Stm) :
  hook_freq self <> 0 ->
  run_hooks self index fetches feeds batch results before eh st =
  let is_step := is_some fetches && is_some feeds || is_some results in
  if (gs_of st mod hook_freq self =? 0) || negb is_step
  then for_each (if negb eh then hooks self else epoch_hooks self)
         (dispatch index results before is_step) st
  else mkRes (Ok tt) st [].
Proof.
  intros Hf. apply Z.eqb_neq in Hf.
  cbv beta iota zeta delta
    [run_hooks bind get_global_step get_step ret raise out post tr app gs_of].
  rewrite Hf. cbv beta iota.
  destruct ((_global_step (step st) mod hook_freq self =? 0)
            || negb (is_some fetches && is_some feeds || is_some results));
    [apply res_eta | reflexivity].
Qed.



(** A hook that raises ends the loop over the hooks: the hooks after it
    are not called. *)
Lemma for_each_aborts {A} (xs1 : list A) x xs2 (body : A -> M Stm unit) st e :
  out (for_each xs1 body st) = Ok tt ->
  out (body x (post (for_each xs1 body st))) = Raise e ->
  for_each (xs1 ++ x :: xs2) body st =
  mkRes (Raise e) (post (body x (post (for_each xs1 body st))))
    (tr (for_each xs1 body st) ++ tr (body x (post (for_each xs1 body st)))).
Proof.
  revert st. induction xs1 as [| y xs1 IH]; intros st Hok Hx;
    cbn [for_each app] in *.
  - cbn [ret out post tr] in *. rewrite (bind_Raise _ _ _ Hx). reflexivity.
  - destruct (out (body y st)) as [[] | e'] eqn:E.
    + rewrite (bind_Ok _ _ _ E) in Hok. rewrite (bind_Ok _ _ _ E) in Hx.
      rewrite !(bind_Ok _ _ _ E). cbn [out post tr] in *.
      rewrite (IH _ Hok Hx). cbn [out post tr]. rewrite app_assoc. reflexivity.
    + rewrite (bind_Raise _ _ _ E) in Hok. discriminate Hok.
Qed.

End Sampling.




(** ** Exceptions and shutdown *)

Section Exceptions.

Context {Stm : Type} `{SplitStream Stm}.
Variable self : iterator.

(** When no [at_exception] raises, [_handle_exception] calls all of
    them, in order, and changes nothing. *)
Lemma for_each_at_exception hs e (st : state Stm) :
  (forall h, In h hs -> at_exception h (step st) e = None) ->
  for_each hs
    (fun hook => call hook (AtException e) (fun s => at_exception hook s e)) st
  = mkRes (Ok tt) st (at_exception_events hs e (gs_of st)).
Proof.
  induction hs as [| h hs IH]; intros Hq; [reflexivity |].
  cbn [for_each at_exception_events map].
  assert (Eh : call h (AtException e) (fun s => at_exception h s e) st =
               mkRes (Ok tt) st [EvCall (hook_name h) (AtException e) (gs_of st)]).
  { unfold call, enter, bind, get_step, emit, ret. cbn [out post tr app].
    rewrite (Hq h (or_introl eq_refl)). reflexivity. }
  unfold bind. rewrite Eh. cbn [out post tr].
  rewrite IH by (intros h' Hin; apply Hq; right; exact Hin). reflexivity.
Qed.

Lemma _handle_exception_all e (st : state Stm) :
  (forall h, In h (hooks self) -> at_exception h (step st) e = None) ->
  _handle_exception self e st =
  mkRes (Ok tt) st (at_exception_events (hooks self) e (gs_of st)).
Proof. apply for_each_at_exception. Qed.

End Exceptions.

(** C3.  On a termination or interrupt signal, the handler calls
    [at_exception] with a [ShutdownRequest] on the hooks of [self.hooks],
    each once, in registration order, and then exits with status 0,
    provided that none of these callbacks raises. *)
Theorem sigterm_notifies_hooks_then_exits {Stm : Type} `{SplitStream Stm}
    (self : iterator) (st : state Stm) :
  (forall h, In h (hooks self) ->
     at_exception h (step st) ShutdownRequest = None) ->
  _handle_sigterm self st =
  mkRes (Raise (SystemExit 0)) st
    (at_exception_events (hooks self) ShutdownRequest (gs_of st)).
Proof.
  intros Hq. unfold _handle_sigterm, bind.
  rewrite (_handle_exception_all self ShutdownRequest st Hq).
  cbn [out post tr raise]. rewrite app_nil_r. reflexivity.
Qed.

Lemma sigterm_notifies_hooks_then_exits_witness :
  _handle_sigterm two_watchers (at_step 4) =
  mkRes (Raise (SystemExit 0)) (at_step 4)
    [EvCall 0 (AtException ShutdownRequest) 4;
     EvCall 1 (AtException ShutdownRequest) 4].
Proof.
  apply (sigterm_notifies_hooks_then_exits two_watchers (at_step 4)).
  intros h [<- | [<- | []]]; reflexivity.
Defined.

(** C3 as the spec states it fails when an [at_exception] raises: the
    hooks after it are not notified, and the process does not exit with
    status 0; the hook's exception leaves the handler instead. *)
Lemma sigterm_cleanup_stops_at_raising_hook :
  _handle_sigterm faulty_cleanup_first (at_step 4) =
  mkRes (Raise (UserError 1)) (at_step 4)
    [EvCall 0 (AtException ShutdownRequest) 4] /\
  ~ In (EvCall 1 (AtException ShutdownRequest) 4)
      (tr (_handle_sigterm faulty_cleanup_first (at_step 4))) /\
  out (_handle_sigterm faulty_cleanup_first (at_step 4)) <>
  Raise (SystemExit 0).
Proof.
  split; [reflexivity |]. split.
  - intros [E | []]. discriminate E.
  - discriminate.
Qed.




(** ** The per-split loop and the sampling condition *)

Section SplitLoop.

Context {Stm : Type} `{SplitStream Stm}.
Variable self : iterator.

(** Running two steps in a row, when what each does is known. *)
Lemma bind_eq {A B} (m : M Stm A) (f : A -> M Stm B) st a st' t o st'' t' T :
  m st = mkRes (Ok a) st' t ->
  f a st' = mkRes o st'' t' ->
  T = t ++ t' ->
  bind m f st = mkRes o st'' T.
Proof.
  intros Em Ef ->. unfold bind. rewrite Em. cbn [out post tr].
  rewrite Ef. reflexivity.
Qed.

(** A step-scoped dispatch at a sampled-out step does nothing. *)
Lemma run_hooks_sampled_out index fetches feeds batch results before eh
    (st : state Stm) :
  hook_freq self <> 0 ->
  gs_of st mod hook_freq self <> 0 ->
  is_some fetches && is_some feeds || is_some results = true ->
  run_hooks self index fetches feeds batch results before eh st =
  mkRes (Ok tt) st [].
Proof.
  intros Hf Hg Hstep.
  rewrite (run_hooks_unfold self index fetches feeds batch results before eh
             st Hf).
  cbn zeta. rewrite Hstep. apply Z.eqb_neq in Hg. rewrite Hg. reflexivity.
Qed.

Lemma split_tick_sampled_out batches ops split r i (st : state Stm) :
  hook_freq self <> 0 ->
  gs_of st mod hook_freq self <> 0 ->
  lookup split batches = Some r ->
  split_tick self batches ops split i st =
  mkRes (Ok true) (after_idle_tick st r i)
    [EvProgress (BarSplit split) i; EvInfo ("Done with " ++ split)%string;
     EvReset split r].
Proof.
  intros Hf Hg Hl. unfold split_tick.
  eapply bind_eq; [cbn; reflexivity | cbv beta |].
  eapply bind_eq; [cbn; reflexivity | cbv beta |].
  eapply bind_eq; [cbn; reflexivity | cbv beta |].
  eapply bind_eq; [cbn; reflexivity | cbv beta |].
  eapply bind_eq; [| cbv beta |].
  { apply run_hooks_sampled_out; [exact Hf | exact Hg | reflexivity]. }
  eapply bind_eq; [| cbv beta |].
  { unfold is_new_epoch, stream_of. rewrite Hl. reflexivity. }
  eapply bind_eq; [cbn; reflexivity | cbv beta |].
  cbn [active negb]. rewrite orb_true_r.
  eapply bind_eq; [cbn; reflexivity | cbv beta |].
  eapply bind_eq; [| cbv beta |].
  { unfold reset, stream_of. rewrite Hl. reflexivity. }
  reflexivity.
  all: reflexivity.
Qed.

End SplitLoop.

(** C7.  In the per-split loop the epoch-scoped hooks' [before_step] and
    [after_step] pass through the same condition [global_step %
    hook_freq == 0] as those of the step-scoped hooks.  In a tick at
    which [global_step % hook_freq] is not zero, no epoch-scoped hook is
    called, so the thunk is not called and [active] stays false; the
    split is reset and the loop over its batches ends with that tick. *)
Theorem sampled_out_tick_ends_split_loop {Stm : Type} `{SplitStream Stm}
    (self : iterator) batches ops split r i rest (st : state Stm) :
  hook_freq self <> 0 ->
  gs_of st mod hook_freq self <> 0 ->
  lookup split batches = Some r ->
  let idle := [EvProgress (BarSplit split) i;
               EvInfo ("Done with " ++ split)%string; EvReset split r] in
  (forall index fetches feeds batch results before eh (st0 : state Stm),
     gs_of st0 = gs_of st ->
     is_some fetches && is_some feeds || is_some results = true ->
     run_hooks self index fetches feeds batch results before eh st0 =
     mkRes (Ok tt) st0 []) /\
  split_tick self batches ops split i st =
    mkRes (Ok true) (after_idle_tick st r i) idle /\
  active (after_idle_tick st r i) = false /\
  for_break (i :: rest) (split_tick self batches ops split) st =
    mkRes (Ok tt) (after_idle_tick st r i) idle.
Proof.
  intros Hf Hg Hl idle. split; [| split; [| split]].
  - intros index fetches feeds batch results before eh st0 Eg Hstep.
    apply run_hooks_sampled_out; [exact Hf | rewrite Eg; exact Hg | exact Hstep].
  - apply split_tick_sampled_out; assumption.
  - reflexivity.
  - cbn [for_break]. eapply bind_eq.
    + apply split_tick_sampled_out; eassumption.
    + cbv beta iota. reflexivity.
    + subst idle. rewrite app_nil_r. reflexivity.
Qed.

Lemma sampled_out_tick_ends_split_loop_witness :
  for_break [0%nat; 1%nat]
    (split_tick epoch_hooks_every_second_step [("train", 0%nat)]
       (Leaf (read_op 0 0%nat)) "train") (at_step 1) =
  mkRes (Ok tt) (after_idle_tick (at_step 1) 0%nat 0%nat)
    [EvProgress (BarSplit "train") 0; EvInfo "Done with train";
     EvReset "train" 0%nat].
Proof.
  refine (proj2 (proj2 (proj2
    (sampled_out_tick_ends_split_loop epoch_hooks_every_second_step
       [("train", 0%nat)] (Leaf (read_op 0 0%nat)) "train" (r := 0%nat)
       0%nat [1%nat] (at_step 1) _ _ _)))).
  - discriminate.
  - discriminate.
  - reflexivity.
Defined.

(** ** The feed payload and the fetch ops *)

Section Payload.

Context {Stm : Type} `{SplitStream Stm}.

Lemma call_op_returns op kwargs v h (st : state Stm) :
  op_call op kwargs (objects st) = (Ok v, h) ->
  call_op op (TDict kwargs) st =
  mkRes (Ok v) (mkState (step st) (streams st) h (active st))
    [EvOp (op_name op)].
Proof.
  intros E. unfold call_op. eapply bind_eq; [reflexivity | cbv beta |].
  - rewrite E. reflexivity.
  - reflexivity.
Qed.

Lemma run_two_ops op1 op2 kwargs v1 h1 v2 h2 (st : state Stm) :
  op_call op1 kwargs (objects st) = (Ok v1, h1) ->
  op_call op2 kwargs h1 = (Ok v2, h2) ->
  run (TList [Leaf op1; Leaf op2]) (TDict kwargs) st =
  mkRes (Ok (TList [Leaf v1; Leaf v2]))
    (mkState (step st) (streams st) h2 (active st))
    [EvRun; EvOp (op_name op1); EvOp (op_name op2)].
Proof.
  intros E1 E2. unfold run.
  eapply bind_eq; [reflexivity | cbv beta |].
  - eapply bind_eq; [| reflexivity |].
    + cbn [walk].
      eapply bind_eq; [| reflexivity |].
      * eapply bind_eq; [| cbv beta |].
        -- eapply bind_eq; [apply call_op_returns; exact E1 | reflexivity |].
           reflexivity.
        -- eapply bind_eq; [| reflexivity |].
           ++ eapply bind_eq; [| cbv beta |].
              ** eapply bind_eq;
                   [apply call_op_returns; exact E2 | reflexivity |].
                 reflexivity.
              ** eapply bind_eq; [reflexivity | reflexivity |]. reflexivity.
              ** reflexivity.
           ++ reflexivity.
        -- reflexivity.
      * reflexivity.
    + reflexivity.
  - reflexivity.
Qed.

End Payload.

(** C9.  The feed payload that [make_feeds] builds has the nested shape
    of the batch, and its leaves are the leaf objects of the batch
    themselves: building it copies no leaf, produces no event and
    changes nothing.  [run] passes the one payload to every fetch op, so
    the second of two fetch ops gets the same leaf objects as the first,
    in the state in which the first left them. *)
Theorem make_feeds_keeps_shape_and_leaf_objects {Stm : Type}
    `{SplitStream Stm} (batch : tree loc) (st : state Stm) :
  make_feeds batch st = mkRes (Ok batch) st [] /\
  (forall feeds, out (make_feeds batch st) = Ok feeds ->
     shape feeds = shape batch /\ leaves feeds = leaves batch) /\
  (forall op1 op2 kwargs v1 h1 v2 h2,
     op_call op1 kwargs (objects st) = (Ok v1, h1) ->
     op_call op2 kwargs h1 = (Ok v2, h2) ->
     run (TList [Leaf op1; Leaf op2]) (TDict kwargs) st =
     mkRes (Ok (TList [Leaf v1; Leaf v2]))
       (mkState (step st) (streams st) h2 (active st))
       [EvRun; EvOp (op_name op1); EvOp (op_name op2)]).
Proof.
  assert (E : make_feeds batch st = mkRes (Ok batch) st [])
    by apply walk_identity.
  split; [exact E |]. split.
  - intros feeds Hf. rewrite E in Hf. injection Hf as <-. split; reflexivity.
  - intros op1 op2 kwargs v1 h1 v2 h2. apply run_two_ops.
Qed.

Lemma make_feeds_keeps_shape_and_leaf_objects_witness :
  leaves (TDict [("x", Leaf 0%nat)]) = [0%nat] /\
  run (TList [Leaf (poke_op 0 "x" 99); Leaf (peek_op 1 "x")])
    (TDict [("x", Leaf 0%nat)]) fresh =
  mkRes (Ok (TList [Leaf 0; Leaf 99]))
    (mkState (step fresh) (streams fresh) (upd (objects fresh) 0%nat 99)
       (active fresh))
    [EvRun; EvOp 0; EvOp 1].
Proof.
  destruct (make_feeds_keeps_shape_and_leaf_objects
              (TDict [("x", Leaf 0%nat)]) fresh) as (_ & Hshape & Hrun).
  split.
  - exact (proj2 (Hshape _ eq_refl)).
  - exact (Hrun (poke_op 0 "x" 99) (peek_op 1 "x") [("x", Leaf 0%nat)]
             0 (upd (objects fresh) 0%nat 99) 99
             (upd (objects fresh) 0%nat 99) eq_refl eq_refl).
Defined.

(** C9 as the spec states it fails: the leaf of the payload is the leaf
    object of the raw batch, so when the first fetch op writes into its
    feeds, the second fetch op of the same tick reads what the first
    wrote (99, not the 5 that the batch held), and the raw batch's leaf
    object holds the new value. *)
Lemma fetch_op_mutation_reaches_later_op_and_batch :
  let batch := TDict [("x", Leaf 0%nat)] in
  let tick :=
    bind (make_feeds (Stm := cyclic) batch)
      (fun feeds =>
         run (TList [Leaf (poke_op 0 "x" 99); Leaf (peek_op 1 "x")]) feeds) in
  objects fresh 0%nat = 5 /\
  leaves batch = [0%nat] /\
  out (make_feeds batch fresh) = Ok batch /\
  out (tick fresh) = Ok (TList [Leaf 0; Leaf 99]) /\
  objects (post (tick fresh)) 0%nat = 99.
Proof. repeat split. Qed.

(** ** Preparing the CelebA dataset *)

(** C10.  When the dataset is not yet prepared and the attribute table
    and the partition table have different numbers of rows, [_prepare]
    raises [ValueError("data files do not match")]: no data file is
    written, the root is not marked as prepared, and the constructor
    raises the same error before [_load], so that no dataset object
    exists that could serve an example. *)
Theorem prepare_raises_on_mismatched_tables (cfg : CelebA.config)
    (fs : CelebA.root) :
  CelebA.prepared fs = false ->
  List.length (CelebA.list_attr_celeba_txt fs) <>
  List.length (CelebA.list_eval_partition_txt fs) ->
  let r := CelebA._prepare fs in
  fst (fst r) = Raise (ValueError "data files do not match") /\
  CelebA.prepared (snd (fst r)) = false /\
  CelebA.data_p (snd (fst r)) = CelebA.data_p fs /\
  ~ In CelebA.PDump (snd r) /\
  ~ In CelebA.PMarkPrepared (snd r) /\
  fst (fst (CelebA.__init__ cfg fs)) =
  Raise (ValueError "data files do not match").
Proof.
  intros Hp Hlen. cbn zeta. unfold CelebA.__init__, CelebA._prepare.
  rewrite Hp. cbn [negb]. rewrite !length_map.
  apply Nat.eqb_neq in Hlen. rewrite Hlen. cbn [negb fst snd].
  repeat split.
  - destruct (CelebA.content_dir fs); cbn; intros Hin;
      repeat (destruct Hin as [Hin | Hin]; [discriminate Hin |]); exact Hin.
  - destruct (CelebA.content_dir fs); cbn; intros Hin;
      repeat (destruct Hin as [Hin | Hin]; [discriminate Hin |]); exact Hin.
Qed.

Lemma prepare_raises_on_mismatched_tables_witness :
  fst (fst (CelebA.__init__ (CelebA.mkConfig false None) mismatched_root)) =
  Raise (ValueError "data files do not match").
Proof.
  refine (proj2 (proj2 (proj2 (proj2 (proj2
    (prepare_raises_on_mismatched_tables (CelebA.mkConfig false None)
       mismatched_root _ _)))))).
  - reflexivity.
  - cbn. discriminate.
Defined.

(** ** The lazy split thunk *)

#[export] Instance quiet_next_calling : Calling (quiet is_next).
Proof. intros h c g. split; reflexivity. Qed.
#[export] Instance quiet_next_running : Running (quiet is_next).
Proof. intros g. split; reflexivity. Qed.
#[export] Instance quiet_next_fetching : Fetching (quiet is_next).
Proof. intros n g. split; reflexivity. Qed.
#[export] Instance quiet_run_calling : Calling (quiet is_run).
Proof. intros h c g. split; reflexivity. Qed.
#[export] Instance quiet_run_fetching : Fetching (quiet is_run).
Proof. intros n g. split; reflexivity. Qed.

Section Thunk.

Context {Stm : Type} `{SplitStream Stm}.
Variable self : iterator.

Lemma tr_bind {A B} (m : M Stm A) (f : A -> M Stm B) st :
  tr (bind m f st) =
  tr (m st) ++
  match out (m st) with
  | Ok a => tr (f a (post (m st)))
  | Raise _ => []
  end.
Proof.
  unfold bind. destruct (out (m st)); cbn [tr]; [| rewrite app_nil_r];
    reflexivity.
Qed.

Lemma out_bind_Ok {A B} (m : M Stm A) (f : A -> M Stm B) st :
  is_Ok (out (bind m f st)) = true ->
  exists a, out (m st) = Ok a /\ is_Ok (out (f a (post (m st)))) = true.
Proof.
  unfold bind. destruct (out (m st)) as [a | e]; cbn [out is_Ok].
  - intros E. exists a. split; [reflexivity | exact E].
  - discriminate.
Qed.

(** Pulling from a registered split: one [EvNext], whatever the stream
    answers. *)
Lemma next_batch_pulls batches split r (st : state Stm) :
  lookup split batches = Some r ->
  tr (next_batch batches split st) = [EvNext split r].
Proof.
  intros Hl. unfold next_batch, stream_of. rewrite Hl.
  rewrite !tr_bind. cbn [ret get_stream emit set_stream out post tr app].
  rewrite !tr_bind. cbn [ret get_stream emit set_stream out post tr app].
  rewrite !tr_bind. cbn [ret get_stream emit set_stream out post tr app].
  destruct (fst (s_next (streams st r))); reflexivity.
Qed.

(** Running the fetch graph: one [EvRun]. *)
Lemma run_runs_once fetches feed_dict (st : state Stm) :
  count is_run (tr (run fetches feed_dict st)) = 1%nat.
Proof.
  unfold run. rewrite tr_bind. cbn [emit out post tr app].
  rewrite tr_bind.
  assert (Hw : respects (quiet is_run)
                 (walk fetches
                    (fun fetch_fn => call_op (Stm := Stm) fetch_fn feed_dict))).
  { apply respects_walk; [exact _ |]. intros op. carry. }
  destruct (Hw st) as [_ Hc].
  destruct (out (walk fetches _ st)); cbn [ret tr];
    rewrite ?app_nil_r; unfold count in *; cbn [filter is_run List.length];
    rewrite Hc; reflexivity.
Qed.

(** What a call of the thunk does: it pulls a batch first; nothing else
    in it pulls; and when it returns it has run the fetch graph once. *)
Lemma thunk_trace batches ops batch_step split r (st : state Stm) :
  lookup split batches = Some r ->
  exists t,
    tr (lazy_split_op self batches ops batch_step split st) =
    EvNext split r :: t /\
    count is_next t = 0%nat /\
    (is_Ok (out (lazy_split_op self batches ops batch_step split st)) = true ->
     count is_run t = 1%nat).
Proof.
  intros Hl. unfold lazy_split_op.
  set (st1 := post (set_split split st)).
  assert (E0 : set_split split st = mkRes (Ok tt) st1 []) by reflexivity.
  rewrite tr_bind, E0. cbn [out post tr app].
  rewrite tr_bind, (next_batch_pulls _ _ st1 Hl). cbn [app].
  eexists. split; [reflexivity |].
  destruct (out (next_batch batches split st1)) as [batch | e] eqn:En.
  - unfold make_feeds. rewrite tr_bind, walk_identity. cbn [out post tr app].
    rewrite tr_bind.
    set (fetches := TDict [("step_ops", ops)]).
    set (st2 := post (next_batch batches split st1)).
    pose proof (respects_run_hooks_no_results self (R := quiet is_next)
                  batch_step (Some fetches) (Some batch) (Some batch) true false
                  st2) as [_ Hn].
    pose proof (respects_run_hooks_no_results self (R := quiet is_run)
                  batch_step (Some fetches) (Some batch) (Some batch) true false
                  st2) as [_ Hr].
    assert (Hrn : respects (quiet is_next) (run (Stm := Stm) fetches batch))
      by carry.
    split.
    + rewrite count_app, Hn.
      destruct (out (run_hooks self batch_step _ _ _ None true false st2));
        [| reflexivity].
      destruct (Hrn (post (run_hooks self batch_step (Some fetches)
                             (Some batch) (Some batch) None true false st2)))
        as [_ Hc].
      exact Hc.
    + intros Hok.
      apply out_bind_Ok in Hok. destruct Hok as ([] & _ & Hok).
      apply out_bind_Ok in Hok. destruct Hok as (b' & Eb & Hok).
      change (post (set_split split st)) with st1 in Eb, Hok.
      rewrite En in Eb. injection Eb as Eb. subst b'.
      apply out_bind_Ok in Hok. destruct Hok as (f' & Ef & Hok).
      unfold make_feeds in Ef, Hok. rewrite walk_identity in Ef, Hok.
      cbn [out] in Ef. injection Ef as Ef. subst f'.
      cbn [post] in Hok.
      apply out_bind_Ok in Hok. destruct Hok as ([] & Eh & _).
      change (post (next_batch batches split st1)) with st2 in Eh.
      rewrite count_app, Hr, Eh. apply run_runs_once.
  - split; [reflexivity |].
    intros Hok.
    apply out_bind_Ok in Hok. destruct Hok as ([] & _ & Hok).
    apply out_bind_Ok in Hok. destruct Hok as (b' & Eb & _).
    change (post (set_split split st)) with st1 in Eb. congruence.
Qed.

End Thunk.

(** C5.  The thunk keeps no result: every call of it pulls a batch from
    its split stream, and every call that returns has run the fetch
    graph; so a second call in the same tick pulls a second batch and
    runs the fetch graph a second time. *)
Theorem thunk_pulls_and_runs_on_every_call {Stm : Type} `{SplitStream Stm}
    (self : iterator) batches ops batch_step split r (st : state Stm) :
  lookup split batches = Some r ->
  let thunk := lazy_split_op self batches ops batch_step split in
  count is_next (tr (thunk st)) = 1%nat /\
  (is_Ok (out (thunk st)) = true ->
     count is_run (tr (thunk st)) = 1%nat /\
     count is_next (tr (bind thunk (fun _ => thunk) st)) = 2%nat /\
     (is_Ok (out (bind thunk (fun _ => thunk) st)) = true ->
      count is_run (tr (bind thunk (fun _ => thunk) st)) = 2%nat)).
Proof.
  intros Hl thunk.
  destruct (thunk_trace self batches ops batch_step split st Hl)
    as (t1 & Et1 & Hn1 & Hr1).
  fold thunk in Et1, Hr1.
  assert (Hcount1 : count is_next (tr (thunk st)) = 1%nat).
  { rewrite Et1. unfold count in *. cbn [filter is_next List.length].
    rewrite Hn1. reflexivity. }
  split; [exact Hcount1 |]. intros Hok1.
  assert (Hrun1 : count is_run (tr (thunk st)) = 1%nat).
  { rewrite Et1. unfold count in *. cbn [filter is_run].
    apply Hr1. exact Hok1. }
  split; [exact Hrun1 |].
  destruct (thunk_trace self batches ops batch_step split (post (thunk st)) Hl)
    as (t2 & Et2 & Hn2 & Hr2).
  fold thunk in Et2, Hr2.
  destruct (out (thunk st)) as [a |] eqn:Ea; [| discriminate Hok1].
  rewrite (bind_Ok _ _ _ Ea). cbn [out tr]. rewrite !count_app, Hcount1, Hrun1.
  rewrite Et2. unfold count in *. cbn [filter is_next is_run List.length].
  rewrite Hn2. split; [reflexivity |].
  intros Hok2. rewrite (Hr2 Hok2). reflexivity.
Qed.

Lemma thunk_pulls_and_runs_on_every_call_witness :
  let thunk :=
    lazy_split_op pulling_twice [("train", 0%nat)] (Leaf (peek_op 0 "x"))
      0 "train" in
  count is_next (tr (bind thunk (fun _ => thunk) numbered)) = 2%nat /\
  count is_run (tr (bind thunk (fun _ => thunk) numbered)) = 2%nat.
Proof.
  intros thunk.
  destruct (thunk_pulls_and_runs_on_every_call pulling_twice
              [("train", 0%nat)] (Leaf (peek_op 0 "x")) 0 "train" (r := 0%nat)
              numbered eq_refl) as [_ Htwice].
  destruct (Htwice eq_refl) as (_ & Hnext & Hrun).
  exact (conj Hnext (Hrun eq_refl)).
Defined.

(** C5 as the spec states it fails: a hook that calls the thunk of the
    train split twice in one [after_step] makes the tick pull two batches
    and run the fetch graph twice, and the two calls return the results
    for two different batches. *)
Lemma second_thunk_call_pulls_and_runs_again :
  let thunk :=
    lazy_split_op pulling_twice [("train", 0%nat)] (Leaf (peek_op 0 "x"))
      0 "train" in
  tr (batch_tick pulling_twice [("train", 0%nat)] (Leaf (peek_op 0 "x"))
        0 numbered) =
  [EvProgress BarBatch 0; EvCall 0 (AfterStep 0) 0;
   EvNext "train" 0%nat; EvCall 0 (BeforeStep 0) 0; EvRun; EvOp 0;
   EvNext "train" 0%nat; EvCall 0 (BeforeStep 0) 0; EvRun; EvOp 0;
   EvInfo "Done with epoch"; EvReset "train" 0%nat] /\
  out (bind thunk (fun a => bind thunk (fun b => ret (a, b))) numbered) =
  Ok (TDict [("step_ops", Leaf 10)], TDict [("step_ops", Leaf 11)]).
Proof. split; reflexivity. Qed.

(** ** Ticks and resets in one epoch *)

#[export] Instance without_lawful p : Lawful (without p).
Proof.
  split; unfold without.
  - reflexivity.
  - reflexivity.
  - intros _ t1 _ t2 _ _ H1 H2. rewrite count_app, H1, H2. reflexivity.
Qed.

#[export] Instance without_tick_calling : Calling (without is_tick).
Proof. intros h c g. reflexivity. Qed.
#[export] Instance without_tick_pulling : Pulling (without is_tick).
Proof. intros s r g. reflexivity. Qed.
#[export] Instance without_tick_running : Running (without is_tick).
Proof. intros g. reflexivity. Qed.
#[export] Instance without_tick_fetching : Fetching (without is_tick).
Proof. intros n g. reflexivity. Qed.
#[export] Instance without_tick_resetting : Resetting (without is_tick).
Proof. split; intros; reflexivity. Qed.
#[export] Instance without_tick_split_bar : SplitBar (without is_tick).
Proof. intros s i g. reflexivity. Qed.
#[export] Instance without_tick_incrementing self :
  Incrementing self (without is_tick).
Proof. intros _ g. reflexivity. Qed.

#[export] Instance without_reset_calling r : Calling (without (is_reset_of r)).
Proof. intros h c g. reflexivity. Qed.
#[export] Instance without_reset_pulling r : Pulling (without (is_reset_of r)).
Proof. intros s r' g. reflexivity. Qed.
#[export] Instance without_reset_running r : Running (without (is_reset_of r)).
Proof. intros g. reflexivity. Qed.
#[export] Instance without_reset_fetching r :
  Fetching (without (is_reset_of r)).
Proof. intros n g. reflexivity. Qed.
#[export] Instance without_reset_split_bar r :
  SplitBar (without (is_reset_of r)).
Proof. intros s i g. reflexivity. Qed.
#[export] Instance without_reset_batch_bar r :
  BatchBar (without (is_reset_of r)).
Proof. intros i g. reflexivity. Qed.
#[export] Instance without_reset_incrementing self r :
  Incrementing self (without (is_reset_of r)).
Proof. intros _ g. reflexivity. Qed.

Section Epoch.

Context {Stm : Type} `{SplitStream Stm}.
Variable self : iterator.


Lemma breaks_with_bind {A} p (m : M Stm A) (f : A -> M Stm bool) :
  respects (without p) m ->
  (forall a st, breaks_with p (f a st)) ->
  forall st, breaks_with p (bind m f st).
Proof.
  intros Hm Hf st. specialize (Hm st). unfold without in Hm.
  unfold breaks_with. rewrite tr_bind, count_app, Hm. cbn [Nat.add].
  destruct (out (m st)) as [a | e] eqn:E.
  - rewrite (bind_Ok _ _ _ E). cbn [out]. apply Hf.
  - rewrite (bind_Raise _ _ _ E). cbn [out]. split; [cbn; lia | reflexivity].
Qed.



Lemma batch_tick_one_tick batches ops batch_step (st : state Stm) :
  count is_tick (tr (batch_tick self batches ops batch_step st)) = 1%nat.
Proof.
  revert st.
  change (respects (fun _ t _ _ => count is_tick t = 1%nat)
            (batch_tick self batches ops batch_step)).
  unfold batch_tick.
  apply (respects_bind_mixed
           (R1 := fun _ t b _ => count is_tick t = 1%nat /\ b = true)
           (R2 := without is_tick)).
  - intros g1 t1 g2 [_ E]. discriminate E.
  - intros g1 t1 g2 t2 b g3 [E1 _] E2. unfold without in E2.
    rewrite count_app, E1, E2. reflexivity.
  - intros st. split; reflexivity.
  - intros _. carry.
    apply respects_run_hooks; try exact _. apply thunks_respect; exact _.
Qed.

(** The last part of a tick: the loop ends with a reset, or goes on
    without one. *)
Lemma end_of_tick_breaks_with r batches split msg (c : bool) (st : state Stm) :
  breaks_with (is_reset_of r)
    ((if c
      then bind (emit (EvInfo msg))
             (fun _ => bind (reset batches split) (fun _ => ret true))
      else ret false) st).
Proof.
  destruct c; [| split; [cbn; lia | reflexivity]].
  unfold breaks_with, reset, stream_of.
  destruct (lookup split batches) as [r' |].
  - cbn. unfold count. cbn. destruct (Nat.eqb r' r); cbn; split;
      [lia | discriminate | lia | discriminate].
  - cbn. split; [lia | discriminate].
Qed.


Lemma split_tick_breaks_with r batches ops split batch_step (st : state Stm) :
  breaks_with (is_reset_of r) (split_tick self batches ops split batch_step st).
Proof.
  revert st. unfold split_tick.
  apply breaks_with_bind; [carry | intros _].
  apply breaks_with_bind; [carry | intros _].
  apply breaks_with_bind; [carry | intros _].
  apply breaks_with_bind; [carry | intros gs].
  apply breaks_with_bind; [| intros _].
  { apply respects_run_hooks; try exact _. intros r0 key thunk E Hin.
    injection E as <-. destruct Hin as [E | []]. injection E as _ <-.
    apply respects_lazy_split_op_epoch; exact _. }
  apply breaks_with_bind; [carry | intros new_epoch].
  apply breaks_with_bind; [carry | intros act].
  intros st. apply end_of_tick_breaks_with.
Qed.

End Epoch.

Section EpochBounds.

Context {Stm : Type} `{SplitStream Stm}.
Variable self : iterator.



(** The dispatch of an epoch callback leaves the state as it is. *)
Lemma run_hooks_epoch_post index before eh (st : state Stm) :
  post (run_hooks self index None None None None before eh st) = st.
Proof.
  unfold run_hooks. cbn [is_some andb orb negb].
  unfold bind at 1. cbn [get_global_step bind get_step ret out post tr].
  unfold bind at 1.
  destruct (hook_freq self =? 0); cbn [raise ret out post tr]; [reflexivity |].
  rewrite orb_true_r.
  generalize (if negb eh then hooks self else epoch_hooks self).
  intros hs. revert st. induction hs as [| h hs IH]; intros st; [reflexivity |].
  cbn [for_each].
  assert (Eh : post (dispatch index None before false h st) = st).
  { unfold dispatch, call, enter, bind, get_step, emit, ret.
    destruct before; cbn [out post tr];
      match goal with
      | |- context [match ?b with Some _ => _ | None => _ end] =>
          destruct b; reflexivity
      end. }
  unfold bind. destruct (out (dispatch index None before false h st));
    cbn [post]; rewrite Eh; [apply IH | reflexivity].
Qed.

Lemma run_hooks_epoch_without p index before eh :
  (forall h c g, p (EvCall h c g) = false) ->
  respects (without p)
    (run_hooks (Stm := Stm) self index None None None None before eh).
Proof.
  intros Hp.
  assert (Hc : Calling (without p)).
  { intros h c g. unfold without, count. cbn. rewrite Hp. reflexivity. }
  carry.
Qed.



Lemma split_phase_ticks batches ops epoch_step :
  respects (without is_tick) (split_phase self batches ops epoch_step).
Proof.
  unfold split_phase. apply respects_for_each; [exact _ |]. intros split _.
  carry. apply respects_for_break; [exact _ |]. intros i. carry.
Qed.



End EpochBounds.




(** ** Test mode without a validation stream *)

Section Returns.

Context {Stm : Type} `{SplitStream Stm}.

Lemma returns_ret {A} (P : A -> Prop) a : P a -> returns P (ret (Stm := Stm) a).
Proof. intros Ha st. exists a. split; [reflexivity | exact Ha]. Qed.

Lemma returns_bind {A B} (P : A -> Prop) (Q : B -> Prop)
    (m : M Stm A) (f : A -> M Stm B) :
  returns P m -> (forall a, P a -> returns Q (f a)) -> returns Q (bind m f).
Proof.
  intros Hm Hf st. destruct (Hm st) as (a & Ea & Pa).
  rewrite (bind_Ok _ _ _ Ea). cbn [out]. apply (Hf a Pa).
Qed.

Lemma returns_weaken {A} (P Q : A -> Prop) (m : M Stm A) :
  (forall a, P a -> Q a) -> returns P m -> returns Q m.
Proof.
  intros HPQ Hm st. destruct (Hm st) as (a & Ea & Pa).
  exists a. split; [exact Ea | exact (HPQ a Pa)].
Qed.

Lemma returns_for_each {A} (xs : list A) (body : A -> M Stm unit) :
  (forall x, In x xs -> returns (fun _ => True) (body x)) ->
  returns (fun _ => True) (for_each xs body).
Proof.
  induction xs as [| x xs IH]; intros Hb; cbn [for_each].
  - apply returns_ret. exact I.
  - apply returns_bind with (P := fun _ => True);
      [apply Hb; left; reflexivity |].
    intros _ _. apply IH. intros y Hy. apply Hb. right. exact Hy.
Qed.

Lemma returns_for_break {A} (xs : list A) (body : A -> M Stm bool) :
  (forall x, returns (fun _ => True) (body x)) ->
  returns (fun _ => True) (for_break xs body).
Proof.
  intros Hb. induction xs as [| x xs IH]; cbn [for_break].
  - apply returns_ret. exact I.
  - apply returns_bind with (P := fun _ => True); [apply Hb |].
    intros [|] _; [apply returns_ret; exact I | exact IH].
Qed.

Lemma returns_walk {A B} (t : tree A) (fn : A -> M Stm B) :
  (forall a, In a (leaves t) -> returns (fun _ => True) (fn a)) ->
  returns (fun _ => True) (walk t fn).
Proof.
  induction t as [a | xs IH | kvs IH] using tree_nested_ind;
    intros Hfn; cbn [walk].
  - apply returns_bind with (P := fun _ => True);
      [apply Hfn; left; reflexivity |].
    intros b _. apply returns_ret. exact I.
  - apply returns_bind with (P := fun _ => True);
      [| intros ys _; apply returns_ret; exact I].
    cbn [leaves] in Hfn. revert Hfn.
    induction IH as [| x r Hx _ IHr]; intros Hfn;
      [apply returns_ret; exact I |].
    cbn [flat_map] in Hfn.
    apply returns_bind with (P := fun _ => True).
    + apply Hx. intros a Ha. apply Hfn. apply in_or_app. left. exact Ha.
    + intros y _. apply returns_bind with (P := fun _ => True).
      * apply IHr. intros a Ha. apply Hfn. apply in_or_app. right. exact Ha.
      * intros ys _. apply returns_ret. exact I.
  - apply returns_bind with (P := fun _ => True);
      [| intros ys _; apply returns_ret; exact I].
    cbn [leaves] in Hfn. revert Hfn.
    induction IH as [| [k v] r Hx _ IHr]; intros Hfn;
      [apply returns_ret; exact I |].
    cbn [flat_map snd] in Hfn. cbn [snd] in Hx.
    apply returns_bind with (P := fun _ => True).
    + apply Hx. intros a Ha. apply Hfn. apply in_or_app. left. exact Ha.
    + intros y _. apply returns_bind with (P := fun _ => True).
      * apply IHr. intros a Ha. apply Hfn. apply in_or_app. right. exact Ha.
      * intros ys _. apply returns_ret. exact I.
Qed.

End Returns.

Ltac returning := intros ?; eexists; split; [reflexivity | exact I].

Ltac then_ := apply returns_bind with (P := fun _ => True); [| intros ? _].

Section Safe.

Context {Stm : Type} `{SplitStream Stm}.
Variable self : iterator.
Variable ops : tree fetch_op.

Hypothesis nonzero_freq : hook_freq self <> 0.
Hypothesis quiet_hooks : forall h, In h (hooks self) ->
  forall s i, before_epoch h s i = None /\ after_epoch h s i = None.
Hypothesis quiet_epoch_hooks : forall h, In h (epoch_hooks self) ->
  quiet_callbacks h /\ calls_offered_thunks h.
Hypothesis dict_batches : @serves_dicts Stm _.
Hypothesis total_ops : forall op, In op (leaves ops) -> total_op op.

Lemma returns_call hook c behaviour :
  (forall s, behaviour s = None) ->
  returns (fun _ => True) (call (Stm := Stm) hook c behaviour).
Proof.
  intros Hb st. unfold call, enter, bind, get_step, emit, ret.
  cbn [out post tr]. rewrite Hb. eexists. split; [reflexivity | exact I].
Qed.

Lemma returns_epoch_dispatch index before eh :
  returns (fun _ => True)
    (run_hooks (Stm := Stm) self index None None None None before eh).
Proof.
  intros st. rewrite (run_hooks_unfold self _ _ _ _ _ _ _ st nonzero_freq).
  cbn zeta. cbn [is_some andb orb negb]. rewrite orb_true_r.
  revert st. apply returns_for_each. intros h Hin. unfold dispatch.
  destruct eh; cbn [negb] in Hin.
  - destruct (quiet_epoch_hooks h Hin) as [Hq _].
    destruct before; apply returns_call; intros s; apply (Hq s index).
  - destruct before; apply returns_call; intros s;
      apply (quiet_hooks h Hin s index).
Qed.

Lemma returns_before_step index fetches feeds batch :
  returns (fun _ => True)
    (run_hooks (Stm := Stm) self index (Some fetches) (Some feeds)
       (Some batch) None true true).
Proof.
  intros st. rewrite (run_hooks_unfold self _ _ _ _ _ _ _ st nonzero_freq).
  cbn zeta. cbn [is_some andb orb negb]. rewrite orb_false_r.
  destruct (gs_of st mod hook_freq self =? 0);
    [| eexists; split; [reflexivity | exact I]].
  revert st. apply returns_for_each. intros h Hin. unfold dispatch.
  destruct (quiet_epoch_hooks h Hin) as [Hq _].
  apply returns_call. intros s. apply (Hq s index).
Qed.

Lemma returns_next_batch batches split r :
  lookup split batches = Some r ->
  returns is_dict (next_batch (Stm := Stm) batches split).
Proof.
  intros Hl st. unfold next_batch, stream_of. rewrite Hl.
  destruct (dict_batches (streams st r)) as [kwargs E].
  exists (TDict kwargs). split; [| exists kwargs; reflexivity].
  unfold bind, ret, get_stream, emit, set_stream. cbn [out post tr].
  rewrite E. reflexivity.
Qed.

Lemma returns_call_op op kwargs :
  total_op op ->
  returns (fun _ => True) (call_op (Stm := Stm) op (TDict kwargs)).
Proof.
  intros Hop st. unfold call_op, bind, emit. cbn [out post tr].
  destruct (Hop kwargs (objects st)) as [v E].
  destruct (op_call op kwargs (objects st)) as [o h]. cbn [fst] in E.
  subst o. exists v. split; [reflexivity | exact I].
Qed.

Lemma returns_run feeds :
  is_dict feeds ->
  returns (fun _ => True)
    (run (Stm := Stm) (TDict [("step_ops", ops)]) feeds).
Proof.
  intros [kwargs ->]. unfold run. then_; [returning |].
  then_; [| apply returns_ret; exact I].
  apply returns_walk. intros op Hin. apply returns_call_op.
  apply total_ops. cbn [leaves flat_map snd] in Hin.
  rewrite app_nil_r in Hin. exact Hin.
Qed.

Lemma returns_lazy_split_op_epoch batches batch_step split r :
  lookup split batches = Some r ->
  returns (fun _ => True)
    (lazy_split_op_epoch self batches ops batch_step split).
Proof.
  intros Hl. unfold lazy_split_op_epoch.
  then_; [returning |]. then_; [returning |].
  apply returns_bind with (P := is_dict);
    [exact (returns_next_batch batches split Hl) | intros batch Hd].
  apply returns_bind with (P := fun feeds => feeds = batch).
  - intros st. unfold make_feeds. rewrite walk_identity.
    exists batch. split; reflexivity.
  - intros feeds ->. then_; [apply returns_before_step |].
    apply returns_run. exact Hd.
Qed.

Lemma returns_run_actions gs split thunk acts :
  returns (fun _ => True) thunk ->
  Forall (fun a => exists k, a = Invoke k /\ In k ["global_step"; split] /\
                             String.eqb k "global_step" = false) acts ->
  returns (fun _ => True)
    (run_actions (Stm := Stm) (Some (mkResults gs [(split, thunk)])) acts).
Proof.
  intros Hth Hacts. induction Hacts as [| a acts (k & -> & Hk & Hg) _ IH];
    cbn [run_actions].
  - apply returns_ret. exact I.
  - rewrite Hg. destruct Hk as [<- | [<- | []]]; [discriminate Hg |].
    cbn [lookup r_thunks].
    rewrite String.eqb_refl. then_; [exact Hth | exact IH].
Qed.

Lemma returns_split_tick batches split r batch_step :
  lookup split batches = Some r ->
  returns (fun _ => True) (split_tick self batches ops split batch_step).
Proof.
  intros Hl. unfold split_tick.
  then_; [returning |]. then_; [returning |]. then_; [returning |].
  then_; [returning |]. then_.
  - intros st. rewrite (run_hooks_unfold self _ _ _ _ _ _ _ st nonzero_freq).
    cbn zeta. cbn [is_some andb orb negb]. rewrite orb_false_r.
    destruct (gs_of st mod hook_freq self =? 0);
      [| eexists; split; [reflexivity | exact I]].
    revert st. apply returns_for_each. intros h Hin. unfold dispatch.
    destruct (quiet_epoch_hooks h Hin) as [_ Hc].
    apply returns_bind with (P := fun _ => True); [returning | intros s _].
    apply returns_run_actions.
    + exact (returns_lazy_split_op_epoch batches batch_step split Hl).
    + match goal with
      | |- Forall _ (after_step _ _ _ ?ks) => exact (Hc s batch_step ks)
      end.
  - apply returns_bind with (P := fun _ => True); [| intros new_epoch _].
    { unfold is_new_epoch, stream_of. rewrite Hl. returning. }
    then_; [returning |].
    destruct (new_epoch || negb a4); [| apply returns_ret; exact I].
    then_; [returning |]. then_; [| apply returns_ret; exact I].
    unfold reset, stream_of. rewrite Hl. returning.
Qed.

Lemma lookup_of_key {A} split (batches : list (string * A)) :
  In split (map fst batches) -> exists r, lookup split batches = Some r.
Proof.
  induction batches as [| [k v] l IH]; intros Hin; [destruct Hin |].
  cbn [lookup]. destruct (String.eqb k split) eqn:E.
  - exists v. reflexivity.
  - destruct Hin as [Hk | Hin]; [| exact (IH Hin)].
    cbn [fst] in Hk. subst k. rewrite String.eqb_refl in E. discriminate E.
Qed.

Lemma returns_split_phase batches epoch_step :
  returns (fun _ => True) (split_phase self batches ops epoch_step).
Proof.
  unfold split_phase. apply returns_for_each. intros split Hin.
  destruct (lookup_of_key split batches Hin) as [r Hl].
  then_; [apply returns_epoch_dispatch |].
  apply returns_bind with (P := fun _ => True); [| intros n _].
  { unfold len, stream_of. rewrite Hl. returning. }
  then_; [| apply returns_epoch_dispatch].
  apply returns_for_break. intros i.
  exact (returns_split_tick batches split i Hl).
Qed.

Lemma returns_epoch_body batches epoch_step :
  test_mode self = true ->
  returns (fun _ => True) (epoch_body self batches ops epoch_step).
Proof.
  intros Etest. unfold epoch_body.
  then_; [returning |]. then_; [returning |].
  then_; [apply returns_epoch_dispatch |].
  then_; [unfold batch_phase; rewrite Etest; returning |].
  then_; [apply returns_epoch_dispatch |].
  apply returns_split_phase.
Qed.

Lemma returns__iterate bi biv :
  test_mode self = true ->
  step_ops self = Some ops ->
  returns (fun _ => True) (_iterate self bi biv).
Proof.
  intros Etest Eops. unfold _iterate, call_step_ops. rewrite Eops, Etest.
  apply returns_bind with (P := fun a => a = ops);
    [intros st; exists ops; split; reflexivity | intros a ->].
  apply returns_bind with (P := fun _ => True); [| intros batches _].
  { unfold split_registry. rewrite Etest.
    destruct biv; cbn [is_some negb andb]; returning. }
  apply returns_for_each. intros i _.
  apply returns_epoch_body. exact Etest.
Qed.

End Safe.

#[export] Instance without_epoch_bar_calling : Calling (without is_epoch_bar).
Proof. intros h c g. reflexivity. Qed.
#[export] Instance without_epoch_bar_pulling : Pulling (without is_epoch_bar).
Proof. intros s r g. reflexivity. Qed.
#[export] Instance without_epoch_bar_running : Running (without is_epoch_bar).
Proof. intros g. reflexivity. Qed.
#[export] Instance without_epoch_bar_fetching :
  Fetching (without is_epoch_bar).
Proof. intros n g. reflexivity. Qed.
#[export] Instance without_epoch_bar_resetting :
  Resetting (without is_epoch_bar).
Proof. split; intros; reflexivity. Qed.
#[export] Instance without_epoch_bar_split_bar :
  SplitBar (without is_epoch_bar).
Proof. intros s i g. reflexivity. Qed.

(** The relation carried through an epoch in test mode, where the batch
    loop has no tick. *)
Section TestMode.

Context {Stm : Type} `{SplitStream Stm}.
Variable self : iterator.
Context (R : rel) `{!Lawful R} `{!Calling R} `{!Pulling R} `{!Running R}
  `{!Fetching R} `{!Resetting R} `{!SplitBar R}.
Hypothesis dry : test_mode self = true.

Lemma batch_phase_test_mode batches ops (st : state Stm) :
  batch_phase self batches ops st = mkRes (Ok tt) st [].
Proof. unfold batch_phase. rewrite dry. reflexivity. Qed.

Lemma respects_split_phase_any batches ops epoch_step :
  respects R (split_phase self batches ops epoch_step).
Proof.
  unfold split_phase. apply respects_for_each; [exact _ |]. intros split _.
  carry. apply respects_for_break; [exact _ |]. intros i. carry.
Qed.

(** An epoch after its bar has advanced. *)
Lemma respects_epoch_rest_test_mode batches ops epoch_step :
  respects R
    (bind (set_epoch_step (Stm := Stm) epoch_step)
       (fun _ =>
          bind (run_hooks self epoch_step None None None None true false)
            (fun _ =>
               bind (batch_phase self batches ops)
                 (fun _ =>
                    bind (run_hooks self epoch_step None None None None
                            false false)
                      (fun _ => split_phase self batches ops epoch_step))))).
Proof.
  assert (Hbp : respects R (batch_phase self batches ops)).
  { intros st. rewrite batch_phase_test_mode. apply law_ret. }
  pose proof (respects_split_phase_any batches ops epoch_step) as Hsp.
  carry.
Qed.

End TestMode.

(** C8.  In test mode with no validation stream: a warning is logged,
    the validation split is the training stream itself, the epoch loop
    runs once, the batch loop has no tick, and the global step stays at
    its initial value.  No exception is raised, provided that the hook
    frequency is not zero, the subclass defines [step_ops], the hooks'
    callbacks do not raise and call only thunks they are offered, every
    pull from the stream returns a dict, and the fetch ops return. *)
Theorem test_mode_without_validation_falls_back {Stm : Type}
    `{SplitStream Stm} (self : iterator) (ops : tree fetch_op) (bi : ref)
    (st : state Stm) :
  test_mode self = true ->
  step_ops self = Some ops ->
  hook_freq self <> 0 ->
  (forall h, In h (hooks self) ->
     forall s i, before_epoch h s i = None /\ after_epoch h s i = None) ->
  (forall h, In h (epoch_hooks self) ->
     quiet_callbacks h /\ calls_offered_thunks h) ->
  @serves_dicts Stm _ ->
  (forall op, In op (leaves ops) -> total_op op) ->
  let r := iterate self bi None st in
  split_registry self bi None st =
    mkRes (Ok [("train", bi); ("validation", bi)]) st
      [EvWarning "No validation batch specified, defaulting to train batch."] /\
  (exists t,
     tr r =
     EvWarning "No validation batch specified, defaulting to train batch."
       :: EvProgress BarEpoch 0 :: t /\
     count is_epoch_bar t = 0%nat /\ count is_tick t = 0%nat) /\
  gs_of (post r) = gs_of st /\
  out r = Ok tt.
Proof.
  intros Etest Eops Hfreq Hhooks Hepoch Hdict Hops r.
  assert (Ereg : split_registry self bi None st =
    mkRes (Ok [("train", bi); ("validation", bi)]) st
      [EvWarning "No validation batch specified, defaulting to train batch."]).
  { unfold split_registry. rewrite Etest. reflexivity. }
  destruct (returns__iterate self Hfreq Hhooks Hepoch Hdict Hops bi None
              Etest Eops st) as ([] & Eok & _).
  assert (Eiter : r = _iterate self bi None st).
  { subst r. unfold iterate, try_except. rewrite Eok. reflexivity. }
  split; [exact Ereg |]. split; [| split].
  - rewrite Eiter. unfold _iterate, call_step_ops. rewrite Eops, Etest.
    rewrite bind_ret_l. cbv beta. change (Z.to_nat 1) with 1%nat.
    pose proof (respects_epoch_rest_test_mode self (R := without is_epoch_bar)
                  Etest [("train", bi); ("validation", bi)] ops 0 st) as He.
    pose proof (respects_epoch_rest_test_mode self (R := without is_tick)
                  Etest [("train", bi); ("validation", bi)] ops 0 st) as Ht.
    unfold without in He, Ht.
    eexists. split.
    + rewrite tr_bind, Ereg. cbn [out post tr app].
      cbn [trange seq for_each].
      rewrite tr_bind. unfold epoch_body at 1. rewrite tr_bind.
      cbn [emit out post tr app]. reflexivity.
    + rewrite !count_app, He, Ht.
      destruct (out (epoch_body self _ ops 0 st)); split; reflexivity.
  - destruct (iterate_frozen self bi None Etest st) as [Hg _]. exact Hg.
  - rewrite Eiter. exact Eok.
Qed.

Lemma test_mode_without_validation_falls_back_witness :
  out (iterate dry_run_with_epoch_hook 0%nat None restored) = Ok tt /\
  gs_of (post (iterate dry_run_with_epoch_hook 0%nat None restored)) = 3.
Proof.
  assert (Hfreq : hook_freq dry_run_with_epoch_hook <> 0) by discriminate.
  assert (Hhooks : forall h, In h (hooks dry_run_with_epoch_hook) ->
            forall s i, before_epoch h s i = None /\ after_epoch h s i = None).
  { intros h [<- | []] s i. split; reflexivity. }
  assert (Hepoch : forall h, In h (epoch_hooks dry_run_with_epoch_hook) ->
            quiet_callbacks h /\ calls_offered_thunks h).
  { intros h [<- | []]. split.
    - intros s i. repeat split.
    - intros s i ks. cbn [after_step epoch_trainer].
      induction ks as [| k ks IH]; [constructor |].
      cbn [filter]. destruct (String.eqb k "global_step") eqn:E; cbn [negb map].
      + eapply Forall_impl; [| exact IH].
        intros a (k' & -> & Hin & Hk'). exists k'.
        split; [reflexivity |]. split; [right; exact Hin | exact Hk'].
      + constructor.
        * exists k. split; [reflexivity |]. split; [left; reflexivity | exact E].
        * eapply Forall_impl; [| exact IH].
          intros a (k' & -> & Hin & Hk'). exists k'.
          split; [reflexivity |]. split; [right; exact Hin | exact Hk']. }
  assert (Hdict : @serves_dicts nat _).
  { intros n. eexists. reflexivity. }
  assert (Hops : forall op, In op (leaves (Leaf (read_op 0 0%nat))) ->
            total_op op).
  { intros op [<- | []] kwargs h. eexists. reflexivity. }
  destruct (test_mode_without_validation_falls_back dry_run_with_epoch_hook
              (ops := Leaf (read_op 0 0%nat)) 0%nat restored
              eq_refl eq_refl Hfreq Hhooks Hepoch Hdict Hops)
    as (_ & _ & Hg & Hok).
  exact (conj Hok Hg).
Defined.

(** * Further properties of the iterator *)

(** ** The exception path of [iterate] *)

Section ExceptionPath.

Context {Stm : Type} `{SplitStream Stm}.
Variable self : iterator.

(** [_handle_exception] stops at the first hook whose [at_exception]
    raises. *)
Lemma _handle_exception_stops hs1 h hs2 e e' (st : state Stm) :
  hooks self = hs1 ++ h :: hs2 ->
  (forall h1, In h1 hs1 -> at_exception h1 (step st) e = None) ->
  at_exception h (step st) e = Some e' ->
  _handle_exception self e st =
  mkRes (Raise e') st (at_exception_events (hs1 ++ [h]) e (gs_of st)).
Proof.
  intros Eh Hq Hr. unfold _handle_exception. rewrite Eh.
  pose proof (for_each_at_exception hs1 e st Hq) as E1.
  assert (E2 : call h (AtException e) (fun s => at_exception h s e) st =
               mkRes (Raise e') st
                 [EvCall (hook_name h) (AtException e) (gs_of st)]).
  { unfold call, enter, bind, get_step, emit, ret. cbn [out post tr app].
    rewrite Hr. reflexivity. }
  rewrite (for_each_aborts hs1 h hs2 _ st (e := e')).
  - rewrite E1. cbn [out post tr]. rewrite E2. cbn [post tr].
    unfold at_exception_events. rewrite map_app. reflexivity.
  - rewrite E1. reflexivity.
  - rewrite E1. cbn [post]. rewrite E2. reflexivity.
Qed.


(** A loop over the hooks whose callbacks return calls them all, in
    order, and changes nothing. *)
Lemma for_each_epoch_dispatch index (before : bool) hs (st : state Stm) :
  (forall h, In h hs ->
     (if before then before_epoch h (step st) index
      else after_epoch h (step st) index) = None) ->
  for_each hs (dispatch index None before false) st =
  mkRes (Ok tt) st
    (callback_events hs
       (if before then BeforeEpoch index else AfterEpoch index) (gs_of st)).
Proof.
  induction hs as [| h hs IH]; intros Hq; [reflexivity |].
  cbn [for_each callback_events map].
  assert (Eh : dispatch index None before false h st =
               mkRes (Ok tt) st
                 [EvCall (hook_name h)
                    (if before then BeforeEpoch index else AfterEpoch index)
                    (gs_of st)]).
  { pose proof (Hq h (or_introl eq_refl)) as Hh.
    unfold dispatch, call, enter, bind, get_step, emit, ret.
    destruct before; cbn [out post tr app]; rewrite Hh; reflexivity. }
  eapply bind_eq; [exact Eh | | reflexivity].
  rewrite IH by (intros h' Hin; apply Hq; right; exact Hin). reflexivity.
Qed.

(** [split_registry] returns, whatever it is given. *)
Lemma split_registry_returns bi biv (st : state Stm) :
  exists batches,
    split_registry self bi biv st =
    mkRes (Ok batches) st
      (if test_mode self && negb (is_some biv)
       then [EvWarning
               "No validation batch specified, defaulting to train batch."]
       else []) /\
    lookup "train" batches = Some bi.
Proof.
  unfold split_registry.
  destruct (test_mode self && negb (is_some biv)); eexists;
    split; reflexivity.
Qed.

End ExceptionPath.

(** X1.  When the subclass does not override [step_ops], [_iterate]
    raises [NotImplementedError] before anything else happens: no
    warning, no progress, no callback, no pull.  [iterate] then calls
    the hooks' [at_exception] and raises the error again. *)
Theorem iterate_without_step_ops {Stm : Type} `{SplitStream Stm}
    (self : iterator) bi biv (st : state Stm) :
  step_ops self = None ->
  (forall h, In h (hooks self) ->
     at_exception h (step st) NotImplementedError = None) ->
  _iterate self bi biv st = mkRes (Raise NotImplementedError) st [] /\
  iterate self bi biv st =
  mkRes (Raise NotImplementedError) st
    (at_exception_events (hooks self) NotImplementedError (gs_of st)).
Proof.
  intros Eops Hq.
  assert (E : _iterate self bi biv st = mkRes (Raise NotImplementedError) st []).
  { unfold _iterate, call_step_ops. rewrite Eops. reflexivity. }
  split; [exact E |].
  destruct (iterate_cases self bi biv st)
    as [[_ [E' | (e0 & E' & Ee)]] | (e0 & E' & _ & ->)];
    rewrite E in *; cbn [out post tr app] in *; try discriminate E'.
  - injection E' as <-. discriminate Ee.
  - injection E' as <-.
    rewrite (_handle_exception_all self _ st Hq). reflexivity.
Qed.

Lemma iterate_without_step_ops_witness :
  iterate abstract_base 0%nat None fresh =
  mkRes (Raise NotImplementedError) fresh
    [EvCall 0 (AtException NotImplementedError) 0;
     EvCall 1 (AtException NotImplementedError) 0].
Proof.
  refine (proj2 (iterate_without_step_ops abstract_base 0%nat None fresh
                   eq_refl _)).
  intros h [<- | [<- | []]]; reflexivity.
Defined.



(** X3.  When [_iterate] raised an [Exception] and the [at_exception]
    of a hook raises in turn, the hooks after that one are not notified
    and [iterate] raises the hook's exception, not the one that
    [_iterate] raised. *)
Theorem at_exception_failure_replaces_exception {Stm : Type}
    `{SplitStream Stm} (self : iterator) bi biv (st : state Stm)
    hs1 h hs2 e e' :
  out (_iterate self bi biv st) = Raise e ->
  is_Exception e = true ->
  hooks self = hs1 ++ h :: hs2 ->
  (forall h1, In h1 hs1 ->
     at_exception h1 (step (post (_iterate self bi biv st))) e = None) ->
  at_exception h (step (post (_iterate self bi biv st))) e = Some e' ->
  iterate self bi biv st =
  mkRes (Raise e') (post (_iterate self bi biv st))
    (tr (_iterate self bi biv st) ++
     at_exception_events (hs1 ++ [h]) e
       (gs_of (post (_iterate self bi biv st)))).
Proof.
  intros Eraise Eexc Eh Hq Hr.
  destruct (iterate_cases self bi biv st)
    as [[_ [E | (e0 & E & Ee)]] | (e0 & E & _ & ->)]; try congruence.
  rewrite Eraise in E. injection E as <-.
  rewrite (_handle_exception_stops self hs1 h hs2 e _ Eh Hq Hr). reflexivity.
Qed.

Lemma at_exception_failure_replaces_exception_witness :
  out (iterate failing_then_faulty_cleanup 0%nat None fresh) =
  Raise (UserError 1) /\
  tr (iterate failing_then_faulty_cleanup 0%nat None fresh) =
  tr (_iterate failing_then_faulty_cleanup 0%nat None fresh) ++
  [EvCall 0 (AtException (UserError 7)) 0;
   EvCall 1 (AtException (UserError 7)) 0].
Proof.
  assert (Eraise : out (_iterate failing_then_faulty_cleanup 0%nat None fresh)
                   = Raise (UserError 7)) by reflexivity.
  rewrite (at_exception_failure_replaces_exception failing_then_faulty_cleanup
             0%nat None fresh [faulty_trainer 0] (faulty_cleanup 1) [watcher 2]
             (e' := UserError 1) Eraise eq_refl eq_refl).
  - split; reflexivity.
  - intros h1 [<- | []]. reflexivity.
  - reflexivity.
Defined.

(** ** The sampling condition at its edges *)

(** X4.  A hook frequency of zero: every call of [run_hooks] raises
    [ZeroDivisionError] before any hook is called, epoch-scoped calls
    included, since the modulus is computed before [is_step] is looked
    at.  So a run that has at least one epoch fails at the first
    [before_epoch] dispatch, with no callback called. *)
Theorem zero_hook_freq_fails_at_first_dispatch {Stm : Type}
    `{SplitStream Stm} (self : iterator) ops bi biv (st : state Stm) :
  hook_freq self = 0 ->
  step_ops self = Some ops ->
  test_mode self = true \/ 0 < num_epochs self ->
  (forall index fetches feeds batch results before eh (st' : state Stm),
     run_hooks self index fetches feeds batch results before eh st' =
     mkRes (Raise ZeroDivisionError) st' []) /\
  _iterate self bi biv st =
  mkRes (Raise ZeroDivisionError)
    (mkState (mkStep (gs_of st) (_batch_step (step st)) 0 (_split (step st)))
       (streams st) (objects st) (active st))
    ((if test_mode self && negb (is_some biv)
      then [EvWarning
              "No validation batch specified, defaulting to train batch."]
      else []) ++ [EvProgress BarEpoch 0]).
Proof.
  intros Hf Eops Hep.
  assert (Hrun : forall index fetches feeds batch results before eh
                   (st' : state Stm),
            run_hooks self index fetches feeds batch results before eh st' =
            mkRes (Raise ZeroDivisionError) st' []).
  { intros. unfold run_hooks.
    eapply bind_eq; [reflexivity | cbv beta | reflexivity].
    rewrite Hf. reflexivity. }
  split; [exact Hrun |].
  unfold _iterate, call_step_ops. rewrite Eops, bind_ret_l.
  destruct (split_registry_returns self bi biv st) as (batches & Ereg & _).
  assert (En : exists k,
            Z.to_nat (if test_mode self then 1 else num_epochs self)
            = Datatypes.S k).
  { destruct (test_mode self).
    - exists 0%nat. reflexivity.
    - destruct Hep as [Hep | Hep]; [discriminate Hep |].
      exists (Nat.pred (Z.to_nat (num_epochs self))). lia. }
  destruct En as [k ->].
  eapply bind_eq; [exact Ereg | cbv beta | reflexivity].
  unfold trange. cbn [seq for_each].
  assert (Ebody : epoch_body self batches ops 0 st =
            mkRes (Raise ZeroDivisionError)
              (mkState
                 (mkStep (gs_of st) (_batch_step (step st)) 0
                    (_split (step st)))
                 (streams st) (objects st) (active st))
              [EvProgress BarEpoch 0]).
  { unfold epoch_body.
    eapply bind_eq; [reflexivity | cbv beta | reflexivity].
    eapply bind_eq; [reflexivity | cbv beta | reflexivity].
    rewrite bind_Raise with (e := ZeroDivisionError);
      rewrite Hrun; reflexivity. }
  rewrite bind_Raise with (e := ZeroDivisionError);
    rewrite Ebody; reflexivity.
Qed.

Lemma zero_hook_freq_fails_at_first_dispatch_witness :
  iterate zero_freq 0%nat None fresh =
  mkRes (Raise ZeroDivisionError) fresh
    [EvProgress BarEpoch 0; EvCall 0 (AtException ZeroDivisionError) 0].
Proof.
  destruct (zero_hook_freq_fails_at_first_dispatch zero_freq
              (ops := Leaf (read_op 0 0%nat)) 0%nat None fresh
              eq_refl eq_refl (or_intror eq_refl)) as [_ E].
  unfold iterate, try_except. rewrite E. reflexivity.
Defined.

(** X5.  An epoch-scoped call of [run_hooks] (no results, and not both
    fetches and feeds) is never sampled: with a hook frequency other
    than zero it calls [before_epoch] (or [after_epoch]) on every hook
    of the list, in registration order, at any global step; when these
    callbacks return, nothing else happens.  A call that carries
    fetches but no feeds is such a call. *)
Theorem epoch_dispatch_is_never_sampled {Stm : Type} `{SplitStream Stm}
    (self : iterator) index fetches feeds batch (before eh : bool)
    (st : state Stm) :
  hook_freq self <> 0 ->
  is_some fetches && is_some feeds = false ->
  (forall h, In h (if negb eh then hooks self else epoch_hooks self) ->
     (if before then before_epoch h (step st) index
      else after_epoch h (step st) index) = None) ->
  run_hooks self index fetches feeds batch None before eh st =
  mkRes (Ok tt) st
    (callback_events (if negb eh then hooks self else epoch_hooks self)
       (if before then BeforeEpoch index else AfterEpoch index) (gs_of st)).
Proof.
  intros Hf Hstep Hq.
  rewrite (run_hooks_unfold self index fetches feeds batch None before eh st
             Hf).
  cbn zeta. rewrite Hstep. cbn [is_some orb negb]. rewrite orb_true_r.
  apply for_each_epoch_dispatch. exact Hq.
Qed.

Lemma epoch_dispatch_is_never_sampled_witness :
  1 mod hook_freq every_second_step <> 0 /\
  run_hooks every_second_step 3 (Some (Leaf (read_op 0 0%nat))) None None
    None true false (at_step 1) =
  mkRes (Ok tt) (at_step 1) [EvCall 0 (BeforeEpoch 3) 1].
Proof.
  split; [discriminate |].
  apply (epoch_dispatch_is_never_sampled every_second_step 3
           (Some (Leaf (read_op 0 0%nat))) None None true false (at_step 1)).
  - discriminate.
  - reflexivity.
  - intros h [<- | []]. reflexivity.
Defined.

(** ** The step budget and the number of epochs *)

#[export] Instance without_epoch_bar_batch_bar :
  BatchBar (without is_epoch_bar).
Proof. intros i g. reflexivity. Qed.
#[export] Instance without_epoch_bar_incrementing self :
  Incrementing self (without is_epoch_bar).
Proof. intros _ g. reflexivity. Qed.

Section Budget.

Context {Stm : Type} `{SplitStream Stm}.
Variable self : iterator.

Lemma bind_Ok_inv {A B} (m : M Stm A) (f : A -> M Stm B) st b :
  out (bind m f st) = Ok b ->
  exists a, out (m st) = Ok a /\ out (f a (post (m st))) = Ok b.
Proof.
  unfold bind. destruct (out (m st)) as [a | e]; cbn [out].
  - intros E. exists a. split; [reflexivity | exact E].
  - discriminate.
Qed.

Lemma frozen_post {A} (m : M Stm A) st :
  respects frozen m -> gs_of (post (m st)) = gs_of st.
Proof. intros Hm. destruct (Hm st) as [E _]. exact E. Qed.

(** Once the budget is reached, a tick of the batch loop that returns
    ends the loop. *)
Lemma batch_tick_budget batches ops i n (st : state Stm) b :
  test_mode self = false -> num_steps self = Some n -> n <= gs_of st + 1 ->
  out (batch_tick self batches ops i st) = Ok b -> b = true.
Proof.
  intros Etest En Hn. unfold batch_tick. intros Hb.
  apply bind_Ok_inv in Hb. destruct Hb as ([] & _ & Hb).
  cbn [emit post] in Hb.
  apply bind_Ok_inv in Hb. destruct Hb as ([] & _ & Hb). cbv beta in Hb.
  set (st1 := post (set_batch_step i st)) in Hb.
  assert (G1 : gs_of st1 = gs_of st) by reflexivity.
  apply bind_Ok_inv in Hb. destruct Hb as (gs & _ & Hb). cbv beta in Hb.
  change (post (get_global_step st1)) with st1 in Hb.
  apply bind_Ok_inv in Hb. destruct Hb as ([] & _ & Hb). cbv beta in Hb.
  match type of Hb with
  | context [post (run_hooks ?a ?b ?c ?d ?e ?f ?g ?h st1)] =>
      set (st2 := post (run_hooks a b c d e f g h st1)) in Hb;
      assert (G2 : gs_of st2 = gs_of st1)
  end.
  { apply frozen_post. apply respects_run_hooks; try exact _.
    apply thunks_respect; exact _. }
  apply bind_Ok_inv in Hb. destruct Hb as (g' & _ & Hb). cbv beta in Hb.
  set (st3 := post (increment_global_step self st2)) in Hb.
  assert (G3 : gs_of st3 = gs_of st2 + 1).
  { subst st3. unfold increment_global_step. rewrite Etest. reflexivity. }
  apply bind_Ok_inv in Hb. destruct Hb as (ne & _ & Hb). cbv beta in Hb.
  set (st4 := post (is_new_epoch batches "train" st3)) in Hb.
  assert (G4 : gs_of st4 = gs_of st3).
  { apply frozen_post. apply respects_is_new_epoch. exact _. }
  apply bind_Ok_inv in Hb. destruct Hb as (gs' & Egs' & Hb). cbv beta in Hb.
  change (get_global_step st4) with (mkRes (Ok (gs_of st4)) st4 []) in Egs'.
  cbn [out] in Egs'. injection Egs' as <-.
  assert (Eb : budget_reached self (gs_of st4) = true).
  { unfold budget_reached. rewrite En. apply Z.leb_le. lia. }
  rewrite Eb, orb_true_r in Hb.
  apply bind_Ok_inv in Hb. destruct Hb as ([] & _ & Hb). cbv beta in Hb.
  apply bind_Ok_inv in Hb. destruct Hb as ([] & _ & Hb). cbv beta in Hb.
  cbn [ret out] in Hb. injection Hb as <-. reflexivity.
Qed.

Lemma batch_phase_budget batches ops n r (st : state Stm) :
  test_mode self = false -> num_steps self = Some n -> n <= gs_of st + 1 ->
  lookup "train" batches = Some r ->
  count is_tick (tr (batch_phase self batches ops st)) =
  if Nat.eqb (s_len (streams st r)) 0 then 0%nat else 1%nat.
Proof.
  intros Etest En Hn Hl. unfold batch_phase. rewrite Etest.
  assert (Elen : len batches "train" st =
                 mkRes (Ok (s_len (streams st r))) st []).
  { unfold len, stream_of. rewrite Hl. reflexivity. }
  rewrite tr_bind, Elen. cbn [out post tr app].
  destruct (s_len (streams st r)) as [| k]; cbn [Nat.eqb]; [reflexivity |].
  unfold trange. cbn [seq for_break].
  rewrite tr_bind, count_app, batch_tick_one_tick.
  destruct (out (batch_tick self batches ops 0 st)) as [b | e] eqn:E.
  - rewrite (batch_tick_budget batches ops 0 st Etest En Hn E). reflexivity.
  - reflexivity.
Qed.

Lemma epoch_body_non_decreasing batches ops epoch_step :
  respects non_decreasing (epoch_body self batches ops epoch_step).
Proof.
  apply respects_epoch_body; try exact _; try solve [intros; carry].
  intros i g. cbn. lia.
Qed.

(** An epoch that begins with the budget reached, on a train stream
    that is not empty, and returns: one tick of the batch loop. *)
Lemma epoch_body_budget batches ops epoch_step n r (st : state Stm) :
  test_mode self = false -> num_steps self = Some n -> n <= gs_of st + 1 ->
  lookup "train" batches = Some r -> s_len (streams st r) <> 0%nat ->
  out (epoch_body self batches ops epoch_step st) = Ok tt ->
  count is_tick (tr (epoch_body self batches ops epoch_step st)) = 1%nat.
Proof.
  intros Etest En Hn Hl Hlen Hok. unfold epoch_body in *.
  set (st1 := post (set_epoch_step epoch_step st)).
  assert (E1 : set_epoch_step epoch_step st = mkRes (Ok tt) st1 [])
    by reflexivity.
  apply bind_Ok_inv in Hok. destruct Hok as ([] & _ & Hok).
  cbn [emit post] in Hok.
  apply bind_Ok_inv in Hok. destruct Hok as ([] & _ & Hok). cbv beta in Hok.
  change (post (set_epoch_step epoch_step st)) with st1 in Hok.
  apply bind_Ok_inv in Hok. destruct Hok as ([] & Ehooks & Hok).
  cbv beta in Hok. rewrite run_hooks_epoch_post in Hok.
  apply bind_Ok_inv in Hok. destruct Hok as ([] & Ephase & Hok).
  cbv beta in Hok.
  assert (Ht1 : respects (without is_tick)
      (run_hooks (Stm := Stm) self epoch_step None None None None
         true false)) by carry.
  assert (Hrest : respects (without is_tick)
      (bind (run_hooks (Stm := Stm) self epoch_step None None None None
               false false)
         (fun _ => split_phase self batches ops epoch_step))).
  { carry. apply split_phase_ticks. }
  specialize (Ht1 st1). specialize (Hrest (post (batch_phase self batches ops st1))).
  unfold without in Ht1, Hrest.
  rewrite tr_bind. cbn [emit out post tr].
  rewrite tr_bind, E1. cbn [out post tr app].
  rewrite count_cons. cbn [is_tick].
  rewrite tr_bind, run_hooks_epoch_post, count_app, Ht1, Ehooks.
  rewrite tr_bind, count_app, Ephase, Hrest.
  rewrite (batch_phase_budget batches ops (r := r) st1 Etest En Hn Hl).
  change (streams st1) with (streams st).
  apply Nat.eqb_neq in Hlen. rewrite Hlen. reflexivity.
Qed.

Lemma epochs_budget batches ops n r xs (st : state Stm) :
  test_mode self = false -> num_steps self = Some n -> n <= gs_of st + 1 ->
  lookup "train" batches = Some r -> (forall s : Stm, s_len s <> 0%nat) ->
  out (for_each xs (epoch_body self batches ops) st) = Ok tt ->
  count is_tick (tr (for_each xs (epoch_body self batches ops) st)) =
  List.length xs.
Proof.
  intros Etest En Hn Hl Hlen. revert st Hn.
  induction xs as [| x xs IH]; intros st Hn Hok; [reflexivity |].
  cbn [for_each List.length] in *.
  apply bind_Ok_inv in Hok. destruct Hok as ([] & Ebody & Hok).
  cbv beta in Hok.
  rewrite tr_bind, count_app, Ebody.
  rewrite (epoch_body_budget batches ops x st Etest En Hn Hl (Hlen _) Ebody).
  rewrite IH; [reflexivity | | exact Hok].
  pose proof (epoch_body_non_decreasing batches ops x st) as Hnd.
  apply steps_from_le in Hnd. lia.
Qed.

(** The bar of the epoch loop advances once in every epoch. *)
Lemma epoch_body_one_bar batches ops epoch_step (st : state Stm) :
  count is_epoch_bar (tr (epoch_body self batches ops epoch_step st)) = 1%nat.
Proof.
  revert st.
  change (respects (fun _ t _ _ => count is_epoch_bar t = 1%nat)
            (epoch_body self batches ops epoch_step)).
  unfold epoch_body.
  apply (respects_bind_mixed
           (R1 := fun _ t b _ => count is_epoch_bar t = 1%nat /\ b = true)
           (R2 := without is_epoch_bar)).
  - intros g1 t1 g2 [_ E]. discriminate E.
  - intros g1 t1 g2 t2 b g3 [E1 _] E2. unfold without in E2.
    rewrite count_app, E1, E2. reflexivity.
  - intros st. split; reflexivity.
  - intros _. carry.
    + apply respects_batch_phase; [exact _ |]. intros. carry.
    + apply respects_split_phase; [exact _ | |]; intros; carry.
Qed.

(** A loop whose every round shows one event of the kind [p]. *)
Lemma for_each_count {A} p (xs : list A) (body : A -> M Stm unit) :
  (forall x st, count p (tr (body x st)) = 1%nat) ->
  forall st,
    (count p (tr (for_each xs body st)) <= List.length xs)%nat /\
    (out (for_each xs body st) = Ok tt ->
     count p (tr (for_each xs body st)) = List.length xs).
Proof.
  intros Hb. induction xs as [| x xs IH]; intros st; cbn [for_each].
  - split; reflexivity.
  - rewrite tr_bind, count_app, Hb. cbn [List.length].
    destruct (out (body x st)) as [[] | e] eqn:E.
    + destruct (IH (post (body x st))) as [Hle Heq].
      rewrite (bind_Ok _ _ _ E). cbn [out]. split; [lia |].
      intros Hok. rewrite (Heq Hok). reflexivity.
    + rewrite (bind_Raise _ _ _ E). cbn [out]. split; [cbn; lia |].
      discriminate.
Qed.

End Budget.

(** X6.  Outside test mode, once the step budget [num_steps] is reached
    (the global step is at most one below it), a tick of the batch loop
    that returns ends the loop: the batch loop of an epoch has exactly
    one tick, or none when the train stream is empty. *)
Theorem step_budget_ends_batch_loop {Stm : Type} `{SplitStream Stm}
    (self : iterator) batches ops n r (st : state Stm) :
  test_mode self = false ->
  num_steps self = Some n ->
  n <= gs_of st + 1 ->
  lookup "train" batches = Some r ->
  (forall i b, out (batch_tick self batches ops i st) = Ok b -> b = true) /\
  count is_tick (tr (batch_phase self batches ops st)) =
  if Nat.eqb (s_len (streams st r)) 0 then 0%nat else 1%nat.
Proof.
  intros Etest En Hn Hl. split.
  - intros i b. apply (batch_tick_budget self batches ops i st Etest En Hn).
  - apply (batch_phase_budget self batches ops st Etest En Hn Hl).
Qed.

Lemma step_budget_ends_batch_loop_witness :
  count is_tick
    (tr (batch_phase budgeted_epochs [("train", 0%nat)]
           (Leaf (read_op 0 0%nat)) restored)) = 1%nat.
Proof.
  refine (proj2 (step_budget_ends_batch_loop budgeted_epochs
                   [("train", 0%nat)] (Leaf (read_op 0 0%nat)) (n := 1)
                   (r := 0%nat) restored eq_refl eq_refl _ eq_refl)).
  cbn. lia.
Defined.

(** X7.  The step budget ends the batch loop of an epoch, not the run:
    outside test mode, with the budget reached at the start and train
    streams that are never empty, a run that returns has gone through
    one tick of the batch loop in every one of its [num_epochs] epochs,
    and its global step has advanced by [num_epochs], past
    [num_steps]. *)
Theorem step_budget_does_not_end_the_run {Stm : Type} `{SplitStream Stm}
    (self : iterator) bi biv n (st : state Stm) :
  test_mode self = false ->
  num_steps self = Some n ->
  n <= gs_of st + 1 ->
  (forall s : Stm, s_len s <> 0%nat) ->
  out (iterate self bi biv st) = Ok tt ->
  count is_tick (tr (iterate self bi biv st)) = Z.to_nat (num_epochs self) /\
  gs_of (post (iterate self bi biv st)) =
  gs_of st + Z.of_nat (Z.to_nat (num_epochs self)).
Proof.
  intros Etest En Hn Hlen Hok.
  assert (Hticks : count is_tick (tr (iterate self bi biv st)) =
                   Z.to_nat (num_epochs self)).
  { destruct (iterate_cases self bi biv st)
      as [[E _] | (e & _ & _ & E)]; rewrite E in Hok |- *.
    - unfold _iterate, call_step_ops in *.
      destruct (step_ops self) as [ops |]; [| discriminate Hok].
      rewrite bind_ret_l in Hok |- *. rewrite Etest in Hok |- *.
      destruct (split_registry_returns self bi biv st)
        as (batches & Ereg & Hl).
      apply bind_Ok_inv in Hok. destruct Hok as (batches' & Eb & Hok).
      rewrite Ereg in Eb, Hok. cbn [out post] in Eb, Hok.
      injection Eb as <-. cbv beta in Hok.
      rewrite tr_bind, Ereg. cbn [out post tr]. rewrite Etest.
      cbn [andb app].
      rewrite (epochs_budget self batches ops _ st Etest En Hn Hl Hlen Hok).
      unfold trange. apply length_seq.
    - cbn [out] in Hok.
      destruct (out (_handle_exception self e _)); discriminate Hok. }
  split; [exact Hticks |].
  pose proof (iterate_counting self bi biv Etest st) as Hc.
  unfold counting in Hc. cbn zeta in Hc. rewrite Hok, Hticks in Hc.
  exact Hc.
Qed.

Lemma step_budget_does_not_end_the_run_witness :
  num_steps budgeted_epochs = Some 1 /\
  out (iterate budgeted_epochs 0%nat None restored) = Ok tt /\
  gs_of (post (iterate budgeted_epochs 0%nat None restored)) = 6.
Proof.
  assert (Hok : out (iterate budgeted_epochs 0%nat None restored) = Ok tt)
    by reflexivity.
  split; [reflexivity |]. split; [exact Hok |].
  refine (proj2 (step_budget_does_not_end_the_run budgeted_epochs 0%nat None
                   (n := 1) restored eq_refl eq_refl _ _ Hok)).
  - cbn. lia.
  - intros s. discriminate.
Defined.

(** X8.  The number of epochs of a run: the bar of the epoch loop
    advances at most [num_epochs] times, at most once in test mode
    whatever [num_epochs] is, and exactly that often in a run that
    returns.  Neither the step budget nor the streams change it. *)
Theorem epochs_of_a_run {Stm : Type} `{SplitStream Stm}
    (self : iterator) bi biv (st : state Stm) :
  let epochs := if test_mode self then 1%nat
                else Z.to_nat (num_epochs self) in
  let r := iterate self bi biv st in
  (count is_epoch_bar (tr r) <= epochs)%nat /\
  (out r = Ok tt -> count is_epoch_bar (tr r) = epochs).
Proof.
  cbn zeta.
  assert (Hi : let r := _iterate self bi biv st in
    (count is_epoch_bar (tr r) <=
     if test_mode self then 1 else Z.to_nat (num_epochs self))%nat /\
    (out r = Ok tt ->
     count is_epoch_bar (tr r) =
     if test_mode self then 1%nat else Z.to_nat (num_epochs self))).
  { cbn zeta. unfold _iterate, call_step_ops.
    destruct (step_ops self) as [ops |].
    - rewrite bind_ret_l.
      destruct (split_registry_returns self bi biv st)
        as (batches & Ereg & _).
      rewrite tr_bind, Ereg. cbn [out post tr]. rewrite count_app.
      assert (Ew : count is_epoch_bar
                     (if test_mode self && negb (is_some biv)
                      then [EvWarning
                              "No validation batch specified, defaulting to train batch."]
                      else []) = 0%nat)
        by (destruct (test_mode self && negb (is_some biv)); reflexivity).
      rewrite Ew. cbn [Nat.add].
      destruct (for_each_count is_epoch_bar
                  (trange BarEpoch
                     (Z.to_nat (if test_mode self then 1
                                else num_epochs self)))
                  (epoch_body self batches ops)
                  (epoch_body_one_bar self batches ops) st) as [Hle Heq].
      unfold trange in Hle, Heq. rewrite length_seq in Hle, Heq.
      assert (En : Z.to_nat (if test_mode self then 1 else num_epochs self) =
                   if test_mode self then 1%nat
                   else Z.to_nat (num_epochs self))
        by (destruct (test_mode self); reflexivity).
      rewrite En in Hle, Heq |- *. unfold trange. split; [exact Hle |].
      intros Hok. apply Heq.
      apply bind_Ok_inv in Hok. destruct Hok as (batches' & Eb & Hok).
      rewrite Ereg in Eb, Hok. cbn [out post] in Eb, Hok.
      injection Eb as <-. exact Hok.
    - cbn. split; [lia | discriminate]. }
  cbn zeta in Hi. destruct Hi as [Hle Heq].
  destruct (iterate_cases self bi biv st)
    as [[E _] | (e & _ & _ & E)]; rewrite E.
  - split; [exact Hle | exact Heq].
  - cbn [out tr].
    assert (Hh : respects (without is_epoch_bar)
                   (_handle_exception (Stm := Stm) self e)) by carry.
    rewrite count_app, (Hh (post (_iterate self bi biv st))), Nat.add_0_r.
    split; [exact Hle |].
    destruct (out (_handle_exception self e _)); discriminate.
Qed.

Lemma epochs_of_a_run_witness :
  num_epochs dry_run_with_epoch_hook = 5 /\
  count is_epoch_bar (tr (iterate dry_run_with_epoch_hook 0%nat None restored))
  = 1%nat.
Proof.
  split; [reflexivity |].
  apply (epochs_of_a_run dry_run_with_epoch_hook 0%nat None restored).
  reflexivity.
Defined.

(** ** The per-split loop goes on while results are retrieved *)

Section Active.

Context {Stm : Type} `{SplitStream Stm}.
Variable self : iterator.

Lemma bind_step {A B} (m : M Stm A) (f : A -> M Stm B) st a st' t :
  m st = mkRes (Ok a) st' t ->
  bind m f st = mkRes (out (f a st')) (post (f a st')) (t ++ tr (f a st')).
Proof. intros E. unfold bind. rewrite E. reflexivity. Qed.

Lemma pulling_bind {A B} (m : M Stm A) (f : A -> M Stm B) :
  sets_active_by_pulling m -> (forall a, sets_active_by_pulling (f a)) ->
  sets_active_by_pulling (bind m f).
Proof.
  intros Hm Hf st. specialize (Hm st).
  destruct (out (m st)) as [a | e] eqn:E.
  - rewrite (bind_Ok _ _ _ E). cbn [post tr]. rewrite count_app.
    intros Ha. destruct (Hf a _ Ha) as [Hmid | Hn]; [| right; lia].
    destruct (Hm Hmid) as [Hpre | Hn]; [left; exact Hpre | right; lia].
  - rewrite (bind_Raise _ _ _ E). exact Hm.
Qed.

Lemma pulling_keep {A} (m : M Stm A) :
  (forall st, active (post (m st)) = active st) -> sets_active_by_pulling m.
Proof. intros Hm st Ha. left. rewrite <- Hm. exact Ha. Qed.

Lemma pulling_for_each {A} (xs : list A) (body : A -> M Stm unit) :
  (forall x, sets_active_by_pulling (body x)) ->
  sets_active_by_pulling (for_each xs body).
Proof.
  intros Hb. induction xs as [| x xs IH]; cbn [for_each].
  - apply pulling_keep. reflexivity.
  - apply pulling_bind; [apply Hb | intros _; exact IH].
Qed.

Lemma pulling_call hook c behaviour :
  sets_active_by_pulling (call (Stm := Stm) hook c behaviour).
Proof.
  apply pulling_keep. intros st.
  unfold call, enter, bind, get_step, emit, ret. cbn [out post tr].
  destruct (behaviour (step st)); reflexivity.
Qed.

(** The thunk of the per-split loop pulls a batch. *)
Lemma thunk_epoch_pulls batches ops batch_step split r (st : state Stm) :
  lookup split batches = Some r ->
  (1 <= count is_next
          (tr (lazy_split_op_epoch self batches ops batch_step split st)))%nat.
Proof.
  intros Hl. unfold lazy_split_op_epoch.
  rewrite (bind_step _ _ _ (a := tt) eq_refl). cbn [tr app].
  rewrite (bind_step _ _ _ (a := tt) eq_refl). cbn [tr app].
  rewrite tr_bind, (next_batch_pulls _ _ _ Hl), count_app.
  cbn. lia.
Qed.

Lemma pulling_run_actions gs split thunk acts :
  (forall st, (1 <= count is_next (tr (thunk st)))%nat) ->
  sets_active_by_pulling
    (run_actions (Stm := Stm) (Some (mkResults gs [(split, thunk)])) acts).
Proof.
  intros Hth. induction acts as [| [key | e] rest IH]; cbn [run_actions].
  - apply pulling_keep. reflexivity.
  - destruct (String.eqb key "global_step");
      [apply pulling_keep; reflexivity |].
    cbn [r_thunks lookup]. destruct (String.eqb split key).
    + intros st _. right. rewrite tr_bind, count_app.
      specialize (Hth st). lia.
    + apply pulling_keep. reflexivity.
  - apply pulling_keep. reflexivity.
Qed.

Lemma pulling_run_hooks index gs split thunk :
  (forall st, (1 <= count is_next (tr (thunk st)))%nat) ->
  sets_active_by_pulling
    (run_hooks (Stm := Stm) self index None None None
       (Some (mkResults gs [(split, thunk)])) false true).
Proof.
  intros Hth. unfold run_hooks.
  apply pulling_bind; [apply pulling_keep; reflexivity | intros g].
  apply pulling_bind.
  { apply pulling_keep. intros st.
    destruct (hook_freq self =? 0); reflexivity. }
  intros _. cbn [is_some andb orb negb].
  destruct (_ || _); [| apply pulling_keep; reflexivity].
  apply pulling_for_each. intros hook. unfold dispatch.
  apply pulling_bind.
  - apply pulling_keep. reflexivity.
  - intros s. apply pulling_run_actions. exact Hth.
Qed.

End Active.

(** X9.  The per-split loop goes on only while someone retrieves
    results: a tick of it that does not end the loop has seen a hook
    call the thunk, so that a batch was pulled in that tick, and the
    stream does not report a new epoch; the split's stream is not reset
    in such a tick. *)
Theorem split_loop_goes_on_only_after_pull {Stm : Type} `{SplitStream Stm}
    (self : iterator) batches ops split r i (st : state Stm) :
  lookup split batches = Some r ->
  out (split_tick self batches ops split i st) = Ok false ->
  let res := split_tick self batches ops split i st in
  (1 <= count is_next (tr res))%nat /\
  active (post res) = true /\
  s_is_new_epoch (streams (post res) r) = false /\
  count (is_reset_of r) (tr res) = 0%nat.
Proof.
  intros Hl Hok. cbn zeta.
  destruct (split_tick_breaks_with self r batches ops split i st) as [_ Hreset].
  specialize (Hreset Hok).
  assert (Ene : forall st' : state Stm,
            is_new_epoch batches split st' =
            mkRes (Ok (s_is_new_epoch (streams st' r))) st' []).
  { intros st'. unfold is_new_epoch, stream_of. rewrite Hl. reflexivity. }
  set (st1 := mkState
                (mkStep (gs_of st) i (_epoch_step (step st)) (_split (step st)))
                (streams st) (objects st) (active st)).
  set (st3 := mkState (step st1) (streams st) (objects st) false).
  unfold split_tick in Hok, Hreset |- *.
  rewrite (bind_step (emit _) _ st (a := tt) (st' := st) eq_refl)
    in Hok, Hreset |- *.
  rewrite (bind_step (set_batch_step i) _ st (a := tt) (st' := st1) (t := [])
             eq_refl) in Hok, Hreset |- *.
  rewrite (bind_step (set_active false) _ st1 (a := tt) (st' := st3)
             (t := []) eq_refl) in Hok, Hreset |- *.
  rewrite (bind_step get_global_step _ st3 (a := gs_of st) (st' := st3)
             (t := []) eq_refl) in Hok, Hreset |- *.
  cbn [out post tr app] in Hok, Hreset |- *.
  match type of Hok with
  | context [bind (run_hooks ?a ?b ?c ?d ?e ?f ?g ?h) _ st3] =>
      set (hooks_run := run_hooks a b c d e f g h) in *
  end.
  assert (Hpull : sets_active_by_pulling hooks_run).
  { apply pulling_run_hooks. intros st'.
    apply (thunk_epoch_pulls self batches ops i split st' Hl). }
  specialize (Hpull st3).
  destruct (out (hooks_run st3)) as [[] | e] eqn:Eh.
  - rewrite (bind_Ok _ _ _ Eh) in Hok, Hreset |- *.
    set (st4 := post (hooks_run st3)) in *.
    rewrite (bind_step _ _ _ (Ene st4)) in Hok, Hreset |- *.
    rewrite (bind_step get_active _ st4 (a := active st4) (st' := st4)
               (t := []) eq_refl) in Hok, Hreset |- *.
    cbn [out post tr app] in Hok, Hreset |- *.
    destruct (s_is_new_epoch (streams st4 r)) eqn:Ene';
      destruct (active st4) eqn:Eact; cbn [orb negb] in Hok, Hreset |- *.
    1, 2, 4: exfalso;
      apply bind_Ok_inv in Hok; destruct Hok as ([] & _ & Hok);
      apply bind_Ok_inv in Hok; destruct Hok as ([] & _ & Hok);
      discriminate Hok.
    cbn [ret post tr] in Hreset |- *. rewrite app_nil_r in Hreset |- *.
    split; [| split; [exact Eact | split; [exact Ene' | exact Hreset]]].
    destruct (Hpull eq_refl) as [Hpre | Hn]; [discriminate Hpre |].
    rewrite count_cons. cbn [is_next]. exact Hn.
  - rewrite (bind_Raise _ _ _ Eh) in Hok. discriminate Hok.
Qed.

Lemma split_loop_goes_on_only_after_pull_witness :
  out (split_tick dry_run_with_epoch_hook [("train", 0%nat)]
         (Leaf (read_op 0 0%nat)) "train" 0 restored) = Ok false /\
  (1 <= count is_next
          (tr (split_tick dry_run_with_epoch_hook [("train", 0%nat)]
                 (Leaf (read_op 0 0%nat)) "train" 0 restored)))%nat.
Proof.
  assert (Hok : out (split_tick dry_run_with_epoch_hook [("train", 0%nat)]
                       (Leaf (read_op 0 0%nat)) "train" 0 restored) = Ok false)
    by reflexivity.
  split; [exact Hok |].
  exact (proj1 (split_loop_goes_on_only_after_pull dry_run_with_epoch_hook
                  [("train", 0%nat)] (Leaf (read_op 0 0%nat)) "train"
                  (r := 0%nat) 0 restored eq_refl Hok)).
Defined.

(** ** Nothing is computed that no hook asks for *)

#[export] Instance without_work_calling : Calling (without is_work).
Proof. intros h c g. reflexivity. Qed.
#[export] Instance without_work_resetting : Resetting (without is_work).
Proof. split; intros; reflexivity. Qed.
#[export] Instance without_work_split_bar : SplitBar (without is_work).
Proof. intros s i g. reflexivity. Qed.
#[export] Instance without_work_batch_bar : BatchBar (without is_work).
Proof. intros i g. reflexivity. Qed.
#[export] Instance without_work_incrementing self :
  Incrementing self (without is_work).
Proof. intros _ g. reflexivity. Qed.

Section Lazy.

Context {Stm : Type} `{SplitStream Stm}.
Variable self : iterator.
Context (R : rel) `{!Lawful R} `{!Calling R}.

(** An [after_step] that calls no entry of [results] produces no event
    of its own. *)
Lemma respects_run_actions_idle results acts :
  (forall k, ~ In (Invoke k) acts) ->
  respects R (run_actions (Stm := Stm) results acts).
Proof.
  intros Hidle. destruct acts as [| [key | e] rest]; cbn [run_actions].
  - carry.
  - exfalso. apply (Hidle key). left. reflexivity.
  - carry.
Qed.

Lemma respects_run_hooks_idle index fetches feeds batch results before eh :
  (forall h, In h (if negb eh then hooks self else epoch_hooks self) ->
     never_invokes h) ->
  respects R
    (run_hooks (Stm := Stm) self index fetches feeds batch results before eh).
Proof.
  intros Hidle. unfold run_hooks. carry.
  apply respects_for_each; [exact _ |]. intros hook Hin.
  unfold dispatch. carry.
  apply respects_run_actions_idle. intros k. apply (Hidle hook Hin).
Qed.

End Lazy.

(** X10.  The iterator computes nothing that no hook asks for: when no
    hook's [after_step] calls an entry of [results], a run pulls no
    batch from any stream, never runs the fetch graph and calls no fetch
    op, however many epochs and ticks it goes through. *)
Theorem no_work_without_retrieval {Stm : Type} `{SplitStream Stm}
    (self : iterator) bi biv (st : state Stm) :
  (forall h, In h (hooks self) -> never_invokes h) ->
  (forall h, In h (epoch_hooks self) -> never_invokes h) ->
  count is_work (tr (iterate self bi biv st)) = 0%nat.
Proof.
  intros Hhooks Hepoch.
  assert (Hrun : forall index fetches feeds batch results before eh,
            respects (without is_work)
              (run_hooks (Stm := Stm) self index fetches feeds batch results
                 before eh)).
  { intros. apply respects_run_hooks_idle; try exact _.
    destruct eh; cbn [negb]; assumption. }
  apply (respects_iterate (R := without is_work)); try exact _.
  - intros. apply Hrun.
  - intros batches ops batch_step. unfold batch_tick. carry.
  - intros batches ops split batch_step. unfold split_tick. carry.
  - intros i g. reflexivity.
  - intros msg g. reflexivity.
  - intros e. carry.
  - intros g1 t1 g2 t2 g3 E1 E2. unfold without in *.
    rewrite count_app, E1, E2. reflexivity.
Qed.

Lemma no_work_without_retrieval_witness :
  count is_work (tr (iterate watched_run 0%nat None fresh)) = 0%nat /\
  count is_tick (tr (iterate watched_run 0%nat None fresh)) = 4%nat.
Proof.
  split.
  - apply (no_work_without_retrieval watched_run 0%nat None fresh).
    + intros h [<- | []] s i ks k [].
    + intros h [<- | []] s i ks k [].
  - reflexivity.
Defined.

(** ** The feeds of [run] *)

Section RunFeeds.

Context {Stm : Type} `{SplitStream Stm}.

(** [walk] with a function that raises at every leaf: it raises at the
    first leaf, and returns when there is none. *)
Lemma walk_raising {A B} (t : tree A) (fn : A -> M Stm B) e :
  (forall a st, fn a st = mkRes (Raise e) st []) ->
  forall st,
    (leaves t = [] /\ exists res, walk t fn st = mkRes (Ok res) st []) \/
    (leaves t <> [] /\ walk t fn st = mkRes (Raise e) st []).
Proof.
  intros Hfn.
  induction t as [a | xs IH | kvs IH] using tree_nested_ind; intros st.
  - right. split; [discriminate |]. cbn [walk].
    rewrite bind_Raise with (e := e); rewrite Hfn; reflexivity.
  - cbn [walk leaves].
    assert (Hgo : forall st',
      (flat_map leaves xs = [] /\
       exists ys,
         (fix go (l : list (tree A)) : M Stm (list (tree B)) :=
            match l with
            | [] => ret []
            | x :: r =>
                bind (walk x fn)
                  (fun y => bind (go r) (fun ys => ret (y :: ys)))
            end) xs st' = mkRes (Ok ys) st' []) \/
      (flat_map leaves xs <> [] /\
       (fix go (l : list (tree A)) : M Stm (list (tree B)) :=
          match l with
          | [] => ret []
          | x :: r =>
              bind (walk x fn)
                (fun y => bind (go r) (fun ys => ret (y :: ys)))
          end) xs st' = mkRes (Raise e) st' [])).
    { induction IH as [| x r Hx _ IHr]; intros st'.
      - left. split; [reflexivity |]. eexists. reflexivity.
      - cbn [flat_map].
        destruct (Hx st') as [[El (res & Ex)] | [Nl Ex]].
        + rewrite El. cbn [app].
          destruct (IHr st') as [[Er (ys & Eys)] | [Nr Eys]].
          * left. split; [exact Er |]. eexists.
            eapply bind_eq; [exact Ex | cbv beta | reflexivity].
            eapply bind_eq; [exact Eys | reflexivity | reflexivity].
          * right. split; [exact Nr |].
            eapply bind_eq; [exact Ex | cbv beta | reflexivity].
            rewrite bind_Raise with (e := e); rewrite Eys; reflexivity.
        + right. split.
          * intros E. apply app_eq_nil in E. destruct E as [E _].
            exact (Nl E).
          * rewrite bind_Raise with (e := e); rewrite Ex; reflexivity. }
    destruct (Hgo st) as [[El (ys & Eys)] | [Nl Eys]].
    + left. split; [exact El |]. eexists.
      eapply bind_eq; [exact Eys | reflexivity | reflexivity].
    + right. split; [exact Nl |].
      rewrite bind_Raise with (e := e); rewrite Eys; reflexivity.
  - cbn [walk leaves].
    assert (Hgo : forall st',
      (flat_map (fun kv => leaves (snd kv)) kvs = [] /\
       exists ys,
         (fix go (l : list (string * tree A))
            : M Stm (list (string * tree B)) :=
            match l with
            | [] => ret []
            | (k, v) :: r =>
                bind (walk v fn)
                  (fun y => bind (go r) (fun ys => ret ((k, y) :: ys)))
            end) kvs st' = mkRes (Ok ys) st' []) \/
      (flat_map (fun kv => leaves (snd kv)) kvs <> [] /\
       (fix go (l : list (string * tree A))
          : M Stm (list (string * tree B)) :=
          match l with
          | [] => ret []
          | (k, v) :: r =>
              bind (walk v fn)
                (fun y => bind (go r) (fun ys => ret ((k, y) :: ys)))
          end) kvs st' = mkRes (Raise e) st' [])).
    { induction IH as [| [k v] r Hx _ IHr]; intros st'.
      - left. split; [reflexivity |]. eexists. reflexivity.
      - cbn [flat_map snd]. cbn [snd] in Hx.
        destruct (Hx st') as [[El (res & Ex)] | [Nl Ex]].
        + rewrite El. cbn [app].
          destruct (IHr st') as [[Er (ys & Eys)] | [Nr Eys]].
          * left. split; [exact Er |]. eexists.
            eapply bind_eq; [exact Ex | cbv beta | reflexivity].
            eapply bind_eq; [exact Eys | reflexivity | reflexivity].
          * right. split; [exact Nr |].
            eapply bind_eq; [exact Ex | cbv beta | reflexivity].
            rewrite bind_Raise with (e := e); rewrite Eys; reflexivity.
        + right. split.
          * intros E. apply app_eq_nil in E. destruct E as [E _].
            exact (Nl E).
          * rewrite bind_Raise with (e := e); rewrite Ex; reflexivity. }
    destruct (Hgo st) as [[El (ys & Eys)] | [Nl Eys]].
    + left. split; [exact El |]. eexists.
      eapply bind_eq; [exact Eys | reflexivity | reflexivity].
    + right. split; [exact Nl |].
      rewrite bind_Raise with (e := e); rewrite Eys; reflexivity.
Qed.

End RunFeeds.

(** X11.  [run] passes the feeds to every fetch op as keyword
    arguments, which needs a dict: with feeds that are not a dict (a
    batch that is a list, or a bare array) [run] raises [TypeError] at
    the first fetch op, and no fetch op is called; it returns only when
    the fetches have no op at all. *)
Theorem run_needs_dict_feeds {Stm : Type} `{SplitStream Stm}
    (fetches : tree fetch_op) (feeds : tree loc) (st : state Stm) :
  (forall kwargs, feeds <> TDict kwargs) ->
  (leaves fetches <> [] ->
   run fetches feeds st = mkRes (Raise TypeError) st [EvRun]) /\
  (leaves fetches = [] ->
   exists results, run fetches feeds st = mkRes (Ok results) st [EvRun]).
Proof.
  intros Hfeeds.
  assert (Hfn : forall (op : fetch_op) (st' : state Stm),
            call_op op feeds st' = mkRes (Raise TypeError) st' []).
  { intros op st'. unfold call_op.
    destruct feeds as [l | xs | kwargs]; try reflexivity.
    exfalso. exact (Hfeeds kwargs eq_refl). }
  unfold run.
  destruct (walk_raising fetches (fun op => call_op op feeds) Hfn st)
    as [[El (res & Ew)] | [Nl Ew]].
  - split; [intros N; exfalso; exact (N El) |].
    intros _. exists res.
    eapply bind_eq; [reflexivity | cbv beta | reflexivity].
    eapply bind_eq; [exact Ew | reflexivity | reflexivity].
  - split; [| intros El; exfalso; exact (Nl El)].
    intros _.
    eapply bind_eq; [reflexivity | cbv beta | reflexivity].
    rewrite bind_Raise with (e := TypeError); rewrite Ew; reflexivity.
Qed.

Lemma run_needs_dict_feeds_witness :
  run (TDict [("step_ops", Leaf (read_op 0 0%nat))])
    (TList [Leaf 0%nat; Leaf 1%nat]) fresh =
  mkRes (Raise TypeError) fresh [EvRun].
Proof.
  refine (proj1 (run_needs_dict_feeds
                   (TDict [("step_ops", Leaf (read_op 0 0%nat))])
                   (feeds := TList [Leaf 0%nat; Leaf 1%nat]) fresh _) _);
    discriminate.
Defined.

(** ** Runs that do not raise *)

Lemma epoch_trainer_calls_offered name :
  calls_offered_thunks (epoch_trainer name).
Proof.
  intros s i ks. cbn [after_step epoch_trainer].
  induction ks as [| k ks IH]; [constructor |].
  cbn [filter]. destruct (String.eqb k "global_step") eqn:E; cbn [negb map].
  - eapply Forall_impl; [| exact IH].
    intros a (k' & -> & Hin & Hk'). exists k'.
    split; [reflexivity |]. split; [right; exact Hin | exact Hk'].
  - constructor.
    + exists k. split; [reflexivity |]. split; [left; reflexivity | exact E].
    + eapply Forall_impl; [| exact IH].
      intros a (k' & -> & Hin & Hk'). exists k'.
      split; [reflexivity |]. split; [right; exact Hin | exact Hk'].
Qed.

Section SafeTraining.

Context {Stm : Type} `{SplitStream Stm}.
Variable self : iterator.
Variable ops : tree fetch_op.

Hypothesis nonzero_freq : hook_freq self <> 0.
Hypothesis quiet_step_hooks : forall h, In h (hooks self) ->
  quiet_callbacks h /\ calls_offered_thunks h.
Hypothesis quiet_epoch_hooks : forall h, In h (epoch_hooks self) ->
  quiet_callbacks h /\ calls_offered_thunks h.
Hypothesis dict_batches : @serves_dicts Stm _.
Hypothesis total_ops : forall op, In op (leaves ops) -> total_op op.

Lemma quiet_step_hooks_epoch h :
  In h (hooks self) ->
  forall s i, before_epoch h s i = None /\ after_epoch h s i = None.
Proof.
  intros Hin s i. destruct (quiet_step_hooks h Hin) as [Hq _].
  destruct (Hq s i) as (Hb & Ha & _). split; assumption.
Qed.

Lemma returns_before_step_of_hooks index fetches feeds batch :
  returns (fun _ => True)
    (run_hooks (Stm := Stm) self index (Some fetches) (Some feeds)
       (Some batch) None true false).
Proof.
  intros st. rewrite (run_hooks_unfold self _ _ _ _ _ _ _ st nonzero_freq).
  cbn zeta. cbn [is_some andb orb negb]. rewrite orb_false_r.
  destruct (gs_of st mod hook_freq self =? 0);
    [| eexists; split; [reflexivity | exact I]].
  revert st. apply returns_for_each. intros h Hin. unfold dispatch.
  destruct (quiet_step_hooks h Hin) as [Hq _].
  apply returns_call. intros s. apply (Hq s index).
Qed.

Lemma returns_lazy_split_op batches batch_step split r :
  lookup split batches = Some r ->
  returns (fun _ => True) (lazy_split_op self batches ops batch_step split).
Proof.
  intros Hl. unfold lazy_split_op.
  then_; [returning |].
  apply returns_bind with (P := is_dict);
    [exact (@returns_next_batch Stm _ dict_batches batches split r Hl)
    | intros batch Hd].
  apply returns_bind with (P := fun feeds => feeds = batch).
  - intros st. unfold make_feeds. rewrite walk_identity.
    exists batch. split; reflexivity.
  - intros feeds ->. then_; [apply returns_before_step_of_hooks |].
    apply (@returns_run Stm ops total_ops). exact Hd.
Qed.

(** An [after_step] that calls thunks it is offered returns when they
    do. *)
Lemma returns_run_actions_offered gs thunks acts :
  (forall k thunk, In (k, thunk) thunks -> returns (fun _ => True) thunk) ->
  Forall (fun a => exists k, a = Invoke k /\
                             In k ("global_step" :: map fst thunks) /\
                             String.eqb k "global_step" = false) acts ->
  returns (fun _ => True)
    (run_actions (Stm := Stm) (Some (mkResults gs thunks)) acts).
Proof.
  intros Hth Hacts. induction Hacts as [| a acts (k & -> & Hk & Hg) _ IH];
    cbn [run_actions].
  - apply returns_ret. exact I.
  - rewrite Hg. cbn [r_thunks].
    destruct Hk as [<- | Hk]; [rewrite String.eqb_refl in Hg; discriminate |].
    destruct (lookup_of_key k thunks Hk) as [thunk El]. rewrite El.
    destruct (lookup_In _ _ El) as [k' Hin].
    then_; [exact (Hth k' thunk Hin) | exact IH].
Qed.

Lemma returns_batch_tick batches r batch_step :
  lookup "train" batches = Some r ->
  returns (fun _ => True) (batch_tick self batches ops batch_step).
Proof.
  intros Hl. unfold batch_tick.
  then_; [returning |]. then_; [returning |]. then_; [returning |].
  then_.
  - intros st. rewrite (run_hooks_unfold self _ _ _ _ _ _ _ st nonzero_freq).
    cbn zeta. cbn [is_some andb orb negb]. rewrite orb_false_r.
    destruct (gs_of st mod hook_freq self =? 0);
      [| eexists; split; [reflexivity | exact I]].
    revert st. apply returns_for_each. intros h Hin. unfold dispatch.
    destruct (quiet_step_hooks h Hin) as [_ Hc].
    apply returns_bind with (P := fun _ => True); [returning | intros s _].
    apply returns_run_actions_offered.
    + intros k thunk Hk. apply in_map_iff in Hk.
      destruct Hk as ([split r'] & E & Hsb). injection E as _ <-.
      cbn [fst].
      destruct (lookup_of_key split batches) as [r'' Hl'].
      { apply in_map_iff. exists (split, r'). split; [reflexivity | exact Hsb]. }
      exact (returns_lazy_split_op batches batch_step split Hl').
    + match goal with
      | |- Forall _ (after_step _ _ _ ?ks) => exact (Hc s batch_step ks)
      end.
  - then_.
    { unfold increment_global_step.
      destruct (test_mode self); cbn [negb]; returning. }
    apply returns_bind with (P := fun _ => True); [| intros new_epoch _].
    { unfold is_new_epoch, stream_of. rewrite Hl. returning. }
    then_; [returning |].
    match goal with
    | |- returns _ (if ?c then _ else _) =>
        destruct c; [| apply returns_ret; exact I]
    end.
    then_; [returning |]. then_; [| apply returns_ret; exact I].
    unfold reset, stream_of. rewrite Hl. returning.
Qed.

Lemma returns_epoch_body_any batches r epoch_step :
  lookup "train" batches = Some r ->
  returns (fun _ => True) (epoch_body self batches ops epoch_step).
Proof.
  intros Hl. unfold epoch_body.
  pose proof (@returns_epoch_dispatch Stm self nonzero_freq
                quiet_step_hooks_epoch quiet_epoch_hooks) as Hdispatch.
  then_; [returning |]. then_; [returning |].
  then_; [apply Hdispatch |].
  then_.
  { unfold batch_phase.
    apply returns_bind with (P := fun _ => True); [| intros n _].
    - destruct (test_mode self); [returning |].
      unfold len, stream_of. rewrite Hl. returning.
    - apply returns_for_break. intros i.
      exact (returns_batch_tick batches i Hl). }
  then_; [apply Hdispatch |].
  exact (@returns_split_phase Stm _ self ops nonzero_freq
           quiet_step_hooks_epoch quiet_epoch_hooks dict_batches total_ops
           batches epoch_step).
Qed.

Lemma returns__iterate_any bi biv :
  step_ops self = Some ops ->
  returns (fun _ => True) (_iterate self bi biv).
Proof.
  intros Eops. unfold _iterate, call_step_ops. rewrite Eops.
  apply returns_bind with (P := fun a => a = ops);
    [intros st; exists ops; split; reflexivity | intros a ->].
  apply returns_bind with (P := fun batches => lookup "train" batches = Some bi).
  - intros st. unfold split_registry.
    destruct (test_mode self && negb (is_some biv)); eexists;
      split; reflexivity.
  - intros batches Hl. apply returns_for_each. intros i _.
    exact (returns_epoch_body_any batches i Hl).
Qed.

End SafeTraining.

(** X12.  A run does not raise, in test mode or in training, with or
    without a validation stream, when the hook frequency is not zero,
    the subclass defines [step_ops], the callbacks of the hooks of both
    lists return and their [after_step] calls only thunks that
    [results] offers, every pull from a stream returns a dict, and the
    fetch ops return.  Then [iterate] returns and calls no
    [at_exception]. *)
Theorem well_behaved_run_returns {Stm : Type} `{SplitStream Stm}
    (self : iterator) (ops : tree fetch_op) bi biv (st : state Stm) :
  hook_freq self <> 0 ->
  step_ops self = Some ops ->
  (forall h, In h (hooks self) -> quiet_callbacks h /\ calls_offered_thunks h) ->
  (forall h, In h (epoch_hooks self) ->
     quiet_callbacks h /\ calls_offered_thunks h) ->
  @serves_dicts Stm _ ->
  (forall op, In op (leaves ops) -> total_op op) ->
  out (iterate self bi biv st) = Ok tt /\
  iterate self bi biv st = _iterate self bi biv st.
Proof.
  intros Hfreq Eops Hhooks Hepoch Hdict Hops.
  destruct (@returns__iterate_any Stm _ self ops Hfreq Hhooks Hepoch Hdict
              Hops bi biv Eops st) as ([] & Eok & _).
  assert (E : iterate self bi biv st = _iterate self bi biv st).
  { unfold iterate, try_except. rewrite Eok. reflexivity. }
  split; [rewrite E; exact Eok | exact E].
Qed.

Lemma well_behaved_run_returns_witness :
  out (iterate retrieving_run 0%nat (Some 1%nat) restored) = Ok tt.
Proof.
  refine (proj1 (well_behaved_run_returns retrieving_run
                   (ops := Leaf (read_op 0 0%nat)) 0%nat (Some 1%nat) restored
                   _ eq_refl _ _ _ _)).
  - discriminate.
  - intros h [<- | []]. split.
    + intros s i. repeat split.
    + apply epoch_trainer_calls_offered.
  - intros h [<- | []]. split.
    + intros s i. repeat split.
    + apply epoch_trainer_calls_offered.
  - intros n. eexists. reflexivity.
  - intros op [<- | []] kwargs h. eexists. reflexivity.
Defined.

(** * Further properties of the CelebA dataset *)

Section Tables.

Import CelebA.

Lemma take_where {A} code (partition : list Z) (xs pre : list A) :
  List.length xs = List.length partition ->
  take_indices (pre ++ xs) (where_eq code partition (List.length pre)) =
  Ok (select code partition xs).
Proof.
  revert xs pre. induction partition as [| p ps IH]; intros xs pre Hlen.
  - destruct xs; reflexivity.
  - destruct xs as [| x xs']; [discriminate Hlen |].
    cbn [List.length] in Hlen. injection Hlen as Hlen.
    specialize (IH xs' (pre ++ [x]) Hlen).
    rewrite <- app_assoc, length_app in IH. cbn [app List.length] in IH.
    rewrite Nat.add_1_r in IH.
    cbn [where_eq select]. destruct (p =? code).
    + cbn [take_indices]. rewrite IH.
      rewrite nth_error_app2 by apply Nat.le_refl.
      rewrite Nat.sub_diag. reflexivity.
    + exact IH.
Qed.

Lemma take_where_0 {A} code (partition : list Z) (xs : list A) :
  List.length xs = List.length partition ->
  take_indices xs (where_eq code partition 0) = Ok (select code partition xs).
Proof. intros Hlen. exact (take_where code partition xs [] Hlen). Qed.

Lemma take_indices_error {A} (xs : list A) indices e :
  take_indices xs indices = Raise e -> e = IndexError.
Proof.
  revert e. induction indices as [| i rest IH]; intros e; cbn [take_indices];
    [discriminate |].
  destruct (nth_error xs i); [| intros E; injection E as <-; reflexivity].
  destruct (take_indices xs rest); [discriminate |].
  intros E. injection E as <-. apply IH. reflexivity.
Qed.

Lemma take_indices_out_of_range {A} (xs : list A) indices i :
  In i indices -> (List.length xs <= i)%nat ->
  take_indices xs indices = Raise IndexError.
Proof.
  intros Hin Hi. induction indices as [| j rest IH]; [destruct Hin |].
  cbn [take_indices]. destruct Hin as [-> | Hin].
  - apply nth_error_None in Hi. rewrite Hi. reflexivity.
  - rewrite (IH Hin). destruct (nth_error xs j); reflexivity.
Qed.

Lemma where_eq_In code (partition : list Z) i i0 :
  nth_error partition i = Some code ->
  In (i0 + i)%nat (where_eq code partition i0).
Proof.
  revert i i0. induction partition as [| p ps IH]; intros i i0 Hi.
  - destruct i; discriminate Hi.
  - cbn [where_eq]. destruct i as [| i].
    + cbn [nth_error] in Hi. injection Hi as ->. rewrite Z.eqb_refl.
      left. symmetry. apply Nat.add_0_r.
    + cbn [nth_error] in Hi. specialize (IH i (Datatypes.S i0) Hi).
      rewrite Nat.add_succ_r. cbn [Nat.add] in IH.
      destruct (p =? code); [right |]; exact IH.
Qed.

Lemma select_all code (partition : list Z) :
  Forall (fun p => p = code) (select code partition partition).
Proof.
  induction partition as [| p ps IH]; [constructor |].
  cbn [select]. destruct (p =? code) eqn:E; [| exact IH].
  constructor; [apply Z.eqb_eq; exact E | exact IH].
Qed.

Lemma select_length {A} code (partition : list Z) (xs : list A) :
  List.length xs = List.length partition ->
  List.length (select code partition xs) = rows_with code partition.
Proof.
  unfold rows_with.
  revert xs. induction partition as [| p ps IH]; intros xs Hlen.
  - destruct xs; reflexivity.
  - destruct xs as [| x xs']; [discriminate Hlen |].
    injection Hlen as Hlen. cbn [select filter].
    destruct (p =? code); cbn [List.length]; rewrite (IH xs' Hlen);
      reflexivity.
Qed.

(** What [_prepare] does to a root that is not prepared and whose
    attribute table has as many rows as the partition table. *)
Lemma _prepare_builds (fs : root) :
  prepared fs = false ->
  List.length (list_attr_celeba_txt fs) =
  List.length (list_eval_partition_txt fs) ->
  exists evs,
    _prepare fs =
    (Ok tt,
     mkRoot true true (list_eval_partition_txt fs) (list_attr_celeba_txt fs)
       (identity_CelebA_txt fs)
       (Some (mkData
                (map (fun s => (CONTENT_DIR ++ "/" ++ s)%string)
                   (map fst (list_eval_partition_txt fs)))
                (map snd (list_eval_partition_txt fs))
                (map snd (identity_CelebA_txt fs))
                (map snd (list_attr_celeba_txt fs)))),
     evs) /\
    In PMarkPrepared evs.
Proof.
  intros Hp Hlen. unfold _prepare. rewrite Hp. cbn [negb].
  rewrite !length_map, Hlen, Nat.eqb_refl. cbn [negb].
  eexists. split; [reflexivity |].
  repeat (apply in_or_app; right). right. left. reflexivity.
Qed.

(** [_load] on a data file whose columns are as long as the partition
    column. *)
Lemma _load_selects c cfg (fs : root) d code :
  data_p fs = Some d ->
  split_code (CelebASplits._get_split c cfg) = Some code ->
  List.length (d_fname d) = List.length (d_partition d) ->
  List.length (d_identity d) = List.length (d_partition d) ->
  List.length (d_attributes d) = List.length (d_partition d) ->
  CelebASplits._load c cfg fs =
  Ok (mkDataset
        (mkData (select code (d_partition d) (d_fname d))
           (select code (d_partition d) (d_partition d))
           (select code (d_partition d) (d_identity d))
           (select code (d_partition d) (d_attributes d)))
        (List.length (select code (d_partition d) (d_fname d)))).
Proof.
  intros Hd Hc Hf Hi Ha. unfold CelebASplits._load. rewrite Hd.
  cbv zeta. unfold split_code in Hc. rewrite Hc.
  rewrite !take_where_0 by (assumption || reflexivity). reflexivity.
Qed.

(** The base class loads as [CelebA._load] does. *)
Lemma __init___base cfg fs :
  CelebASplits.__init__ CelebASplits.Base cfg fs = __init__ cfg fs.
Proof. reflexivity. Qed.

(** A root whose preparation succeeded is prepared, and preparing it
    again does nothing. *)
Lemma _prepare_once (fs fs' : root) evs :
  _prepare fs = (Ok tt, fs', evs) ->
  prepared fs' = true /\ _prepare fs' = (Ok tt, fs', []).
Proof.
  unfold _prepare at 1. destruct (prepared fs) eqn:Hp; cbn [negb].
  - intros E. injection E as <- _. split; [exact Hp |].
    unfold _prepare. rewrite Hp. reflexivity.
  - destruct (negb (Nat.eqb _ _)); [discriminate |].
    intros E. injection E as <- _. split; reflexivity.
Qed.

Lemma filter_codes (partition : list Z) :
  (rows_with 0 partition + rows_with 1 partition + rows_with 2 partition =
   List.length (filter known_code partition))%nat.
Proof.
  unfold rows_with, known_code.
  induction partition as [| p ps IH]; [reflexivity |].
  cbn [filter].
  destruct (Z.eqb_spec p 0) as [-> | H0]; [cbn; lia |].
  destruct (Z.eqb_spec p 1) as [-> | H1]; [cbn; lia |].
  destruct (Z.eqb_spec p 2) as [-> | H2]; cbn; lia.
Qed.

Lemma filter_all {A} (f : A -> bool) (xs : list A) :
  Forall (fun x => f x = true) xs -> filter f xs = xs.
Proof.
  induction 1 as [| x xs Hx _ IH]; [reflexivity |].
  cbn [filter]. rewrite Hx, IH. reflexivity.
Qed.

End Tables.

(** X13.  Construction on consistent tables: when the root is not yet
    prepared and the three tables have the same number of rows, the
    constructor of [CelebA] or of one of its split subclasses prepares
    the root and returns a dataset whose four label columns are the
    rows of the tables whose partition code is that of the split (0 for
    train, 1 for val, 2 for test), in table order, the file names under
    the image directory.  Its length is the number of these rows. *)
Theorem celeba_loads_rows_of_split (c : CelebASplits.cls)
    (cfg : CelebA.config) (fs : CelebA.root) (code : Z) :
  CelebA.prepared fs = false ->
  consistent fs ->
  split_code (CelebASplits._get_split c cfg) = Some code ->
  let partition := map snd (CelebA.list_eval_partition_txt fs) in
  exists d fs' evs,
    CelebASplits.__init__ c cfg fs = (Ok d, fs', evs) /\
    CelebA.prepared fs' = true /\
    CelebA.labels d =
    CelebA.mkData
      (select code partition
         (map (fun s => ("img_align_celeba/" ++ s)%string)
            (map fst (CelebA.list_eval_partition_txt fs))))
      (select code partition partition)
      (select code partition (map snd (CelebA.identity_CelebA_txt fs)))
      (select code partition (map snd (CelebA.list_attr_celeba_txt fs))) /\
    Forall (fun p => p = code) (CelebA.d_partition (CelebA.labels d)) /\
    CelebA.__len__ d = rows_with code partition /\
    List.length (CelebA.d_identity (CelebA.labels d)) = CelebA.__len__ d /\
    List.length (CelebA.d_attributes (CelebA.labels d)) = CelebA.__len__ d.
Proof.
  intros Hp [Hattr Hid] Hc partition.
  destruct (_prepare_builds fs Hp Hattr) as (evs & Eprep & _).
  unfold CelebASplits.__init__. rewrite Eprep.
  erewrite _load_selects;
    [| reflexivity | exact Hc | cbn [CelebA.d_fname CelebA.d_partition
                                     CelebA.d_identity CelebA.d_attributes];
                                rewrite !length_map; congruence ..].
  cbn [CelebA.d_fname CelebA.d_partition CelebA.d_identity
       CelebA.d_attributes].
  do 3 eexists. split; [reflexivity |]. split; [reflexivity |].
  split; [reflexivity |].
  cbn [CelebA.labels CelebA.__len__ CelebA._length CelebA.d_partition
       CelebA.d_identity CelebA.d_attributes].
  split; [apply select_all |].
  assert (Hlen : forall {A} (xs : list A),
            List.length xs = List.length partition ->
            List.length (select code partition xs) =
            rows_with code partition)
    by (intros A xs; apply select_length).
  subst partition.
  rewrite !Hlen by (rewrite !length_map; congruence).
  repeat split.
Qed.

Lemma celeba_loads_rows_of_split_witness :
  fst (fst (CelebASplits.__init__ CelebASplits.Base
              (CelebA.mkConfig false None) four_rows)) =
  Ok (CelebA.mkDataset
        (CelebA.mkData
           ["img_align_celeba/000001.jpg"; "img_align_celeba/000004.jpg"]
           [0; 0] [7; 9] [[1; -1]; [-1; 1]]) 2).
Proof.
  destruct (@celeba_loads_rows_of_split CelebASplits.Base
              (CelebA.mkConfig false None) four_rows 0
              eq_refl (conj eq_refl eq_refl) eq_refl)
    as (d & fs' & evs & E & _ & Hl & _ & Hn & _).
  rewrite E. cbn [fst]. destruct d as [l n].
  cbn [CelebA.labels CelebA.__len__ CelebA._length] in Hl, Hn.
  rewrite Hl, Hn. reflexivity.
Defined.

(** X14.  The root is prepared once: after a construction whose
    preparation succeeded (also when loading then failed, on an
    unknown split name), the root is marked as prepared, and a later
    construction, of any class and with any config, downloads, unpacks
    and writes nothing, leaves the root as it is and only loads; with
    the same class and config it gives what the first one gave. *)
Theorem celeba_prepares_once (c1 c2 : CelebASplits.cls)
    (cfg1 cfg2 : CelebA.config) (fs fs' : CelebA.root) o evs :
  CelebASplits.__init__ c1 cfg1 fs = (o, fs', evs) ->
  fst (fst (CelebA._prepare fs)) = Ok tt ->
  CelebA.prepared fs' = true /\
  CelebASplits.__init__ c2 cfg2 fs' =
    (CelebASplits._load c2 cfg2 fs', fs', []) /\
  CelebASplits.__init__ c1 cfg1 fs' = (o, fs', []).
Proof.
  unfold CelebASplits.__init__ at 1.
  destruct (CelebA._prepare fs) as [[[[] | e] fs1] evs1] eqn:Eprep;
    intros E Hok; [| discriminate Hok].
  injection E as <- <- <-.
  destruct (_prepare_once fs Eprep) as [Hp Eagain].
  split; [exact Hp |].
  unfold CelebASplits.__init__. rewrite Eagain. split; reflexivity.
Qed.

Lemma celeba_prepares_once_witness :
  fst (fst (CelebASplits.__init__ CelebASplits.Base
              (CelebA.mkConfig false (Some "validation")) four_rows)) =
  Raise AssertionError /\
  (let fs' := snd (fst (CelebASplits.__init__ CelebASplits.Base
                          (CelebA.mkConfig false (Some "validation"))
                          four_rows)) in
   CelebA.prepared fs' = true /\
   snd (CelebASplits.__init__ CelebASplits.CelebAVal
          (CelebA.mkConfig false None) fs') = []).
Proof.
  split; [reflexivity |]. cbv zeta.
  destruct (@celeba_prepares_once CelebASplits.Base CelebASplits.CelebAVal
              (CelebA.mkConfig false (Some "validation"))
              (CelebA.mkConfig false None) four_rows _ _ _
              eq_refl eq_refl) as (Hp & E & _).
  split; [exact Hp |]. exact (f_equal snd E).
Defined.

(** X15.  The three split subclasses take their split from the class,
    not from the config, and between them they serve every row of the
    partition table whose code is 0, 1 or 2 exactly once: on consistent
    tables the lengths of [CelebATrain], [CelebAVal] and [CelebATest]
    add up to the number of these rows, which is the number of all rows
    when the table has no other code.  Only the first construction
    prepares the root. *)
Theorem split_classes_cover_table (cfg : CelebA.config) (fs : CelebA.root) :
  CelebA.prepared fs = false ->
  consistent fs ->
  let partition := map snd (CelebA.list_eval_partition_txt fs) in
  exists train val test fs' evs,
    CelebASplits.__init__ CelebASplits.CelebATrain cfg fs =
      (Ok train, fs', evs) /\
    CelebASplits.__init__ CelebASplits.CelebAVal cfg fs' =
      (Ok val, fs', []) /\
    CelebASplits.__init__ CelebASplits.CelebATest cfg fs' =
      (Ok test, fs', []) /\
    (CelebA.__len__ train + CelebA.__len__ val + CelebA.__len__ test)%nat =
    List.length (filter known_code partition) /\
    (forallb known_code partition = true ->
     (CelebA.__len__ train + CelebA.__len__ val + CelebA.__len__ test)%nat =
     List.length (CelebA.list_eval_partition_txt fs)).
Proof.
  intros Hp [Hattr Hid] partition.
  destruct (_prepare_builds fs Hp Hattr) as (evs & Eprep & _).
  destruct (_prepare_once fs Eprep) as [_ Eagain].
  assert (Hload : forall c code,
            split_code (CelebASplits._get_split c cfg) = Some code ->
            exists d,
              CelebASplits._load c cfg (snd (fst (CelebA._prepare fs))) = Ok d /\
              CelebA.__len__ d = rows_with code partition).
  { intros c code Hc. rewrite Eprep. cbn [fst snd].
    erewrite _load_selects;
      [| reflexivity | exact Hc
       | cbn [CelebA.d_fname CelebA.d_partition CelebA.d_identity
              CelebA.d_attributes];
         rewrite !length_map; congruence ..].
    eexists. split; [reflexivity |].
    cbn [CelebA.__len__ CelebA._length CelebA.d_fname CelebA.d_partition].
    apply select_length. unfold partition. rewrite !length_map.
    reflexivity. }
  destruct (Hload CelebASplits.CelebATrain 0 eq_refl) as (train & Etrain & Ltrain).
  destruct (Hload CelebASplits.CelebAVal 1 eq_refl) as (val & Eval & Lval).
  destruct (Hload CelebASplits.CelebATest 2 eq_refl) as (test & Etest & Ltest).
  rewrite Eprep in Etrain, Eval, Etest. cbn [fst snd] in Etrain, Eval, Etest.
  exists train, val, test. do 2 eexists.
  unfold CelebASplits.__init__. rewrite Eprep, Eagain, Etrain, Eval, Etest.
  split; [reflexivity |]. split; [reflexivity |]. split; [reflexivity |].
  rewrite Ltrain, Lval, Ltest, filter_codes.
  split; [reflexivity |].
  intros Hall. rewrite filter_all.
  - subst partition. apply length_map.
  - apply Forall_forall. rewrite forallb_forall in Hall. exact Hall.
Qed.

Lemma split_classes_cover_table_witness :
  exists train val test fs',
    fst (fst (CelebASplits.__init__ CelebASplits.CelebATrain
                (CelebA.mkConfig true (Some "test")) four_rows)) = Ok train /\
    fst (fst (CelebASplits.__init__ CelebASplits.CelebAVal
                (CelebA.mkConfig true (Some "test")) fs')) = Ok val /\
    fst (fst (CelebASplits.__init__ CelebASplits.CelebATest
                (CelebA.mkConfig true (Some "test")) fs')) = Ok test /\
    (CelebA.__len__ train + CelebA.__len__ val + CelebA.__len__ test = 4)%nat.
Proof.
  destruct (@split_classes_cover_table (CelebA.mkConfig true (Some "test"))
              four_rows eq_refl (conj eq_refl eq_refl))
    as (train & val & test & fs' & evs & E1 & E2 & E3 & _ & Hall).
  exists train, val, test, fs'.
  rewrite E1, E2, E3. repeat split. exact (Hall eq_refl).
Defined.

(** X16.  [_prepare] compares the attribute table with the partition
    table only.  When the identity table is too short to have the row
    of an image of the split, the root is prepared all the same (the
    data file is written and the root marked), the constructor then
    raises [IndexError] in [_load], and so does every later
    construction of that split, which finds the root prepared and does
    not build the data file again. *)
Theorem short_identity_table_is_not_detected (c : CelebASplits.cls)
    (cfg : CelebA.config) (fs : CelebA.root) (code : Z) (i : nat) :
  CelebA.prepared fs = false ->
  List.length (CelebA.list_attr_celeba_txt fs) =
  List.length (CelebA.list_eval_partition_txt fs) ->
  split_code (CelebASplits._get_split c cfg) = Some code ->
  nth_error (map snd (CelebA.list_eval_partition_txt fs)) i = Some code ->
  (List.length (CelebA.identity_CelebA_txt fs) <= i)%nat ->
  exists fs' evs,
    CelebASplits.__init__ c cfg fs = (Raise IndexError, fs', evs) /\
    In CelebA.PMarkPrepared evs /\
    CelebA.prepared fs' = true /\
    CelebASplits.__init__ c cfg fs' = (Raise IndexError, fs', []).
Proof.
  intros Hp Hattr Hc Hrow Hshort.
  destruct (_prepare_builds fs Hp Hattr) as (evs & Eprep & Hmark).
  destruct (_prepare_once fs Eprep) as [Hp' Eagain].
  assert (Eload : CelebASplits._load c cfg (snd (fst (CelebA._prepare fs))) =
                  Raise IndexError).
  { rewrite Eprep. cbn [fst snd]. unfold CelebASplits._load.
    cbn [CelebA.data_p]. cbv zeta. unfold split_code in Hc. rewrite Hc.
    cbn [CelebA.d_fname CelebA.d_partition CelebA.d_identity
         CelebA.d_attributes].
    rewrite !take_where_0 by (rewrite ?length_map; reflexivity).
    rewrite (take_indices_out_of_range (map snd (CelebA.identity_CelebA_txt fs))
               (CelebA.where_eq code
                  (map snd (CelebA.list_eval_partition_txt fs)) 0) (i := i)).
    - reflexivity.
    - exact (@where_eq_In code _ i 0%nat Hrow).
    - rewrite length_map. exact Hshort. }
  rewrite Eprep in Eload. cbn [fst snd] in Eload.
  do 2 eexists. unfold CelebASplits.__init__.
  rewrite Eprep, Eagain, Eload.
  split; [reflexivity |]. split; [exact Hmark |]. split; reflexivity.
Qed.

Lemma short_identity_table_is_not_detected_witness :
  fst (fst (CelebASplits.__init__ CelebASplits.Base
              (CelebA.mkConfig false None) truncated_identities)) =
  Raise IndexError /\
  CelebA.prepared
    (snd (fst (CelebASplits.__init__ CelebASplits.Base
                 (CelebA.mkConfig false None) truncated_identities))) = true.
Proof.
  destruct (@short_identity_table_is_not_detected CelebASplits.Base
              (CelebA.mkConfig false None) truncated_identities 0 3%nat
              eq_refl eq_refl eq_refl eq_refl)
    as (fs' & evs & E & _ & Hp & _).
  - cbn. lia.
  - rewrite E. split; [reflexivity | exact Hp].
Defined.
